(** * authentik-enum: release-tag enumeration and AdminInterface probing

    A shallow embedding of [authentik-enum.py]: the tag normaliser, the
    [Link] header parser, the paginated GitHub enumerator, the Range probe
    and the controller [main], followed by the properties of the design
    document that can be stated over them.

    Conventions of the embedding
    - A Python [str] is a [string]; a character is a code point below 256.
      Whitespace is what [str.isspace] (and the regular expression class
      [\s]) accepts in that range.
    - Python integers are [Z] (status codes) or [nat] (counters, [len]).
    - Durations ([--timeout], [--sleep]) are rationals.
    - Network, terminal and clock are effects: every call to them is
      recorded, with the answer it got, in a chronological trace. *)

From Stdlib Require Import Ascii QArith Lqa.
From stdpp Require Import base option list gmap strings pretty.

Set Default Proof Using "Type".
Set Warnings "-clear-no-such-hyp".
Local Open Scope Z_scope.

(** ** Python string primitives *)

Module Str.

(** [str.isspace] on one code point below 256: TAB..CR, FS..US, SPACE,
    NEL (0x85) and NBSP (0xA0). *)
Definition isspace (c : ascii) : bool :=
  let n := nat_of_ascii c in
  ((9 <=? n) && (n <=? 13) || (28 <=? n) && (n <=? 32)
   || (n =? 133) || (n =? 160))%nat.

Definition is_empty (s : string) : bool :=
  match s with EmptyString => true | String _ _ => false end.

(** [s.lstrip()] *)
Fixpoint lstrip (s : string) : string :=
  match s with
  | EmptyString => EmptyString
  | String c r => if isspace c then lstrip r else s
  end.

(** [s.rstrip()] *)
Fixpoint rstrip (s : string) : string :=
  match s with
  | EmptyString => EmptyString
  | String c r =>
      let r' := rstrip r in
      if is_empty r' && isspace c then EmptyString else String c r'
  end.

(** [s.strip()] *)
Definition strip (s : string) : string := rstrip (lstrip s).

(** [s.rstrip(chars)] for a one-character [chars]. *)
Fixpoint rstrip_char (x : ascii) (s : string) : string :=
  match s with
  | EmptyString => EmptyString
  | String c r =>
      let r' := rstrip_char x r in
      if is_empty r' && bool_decide (c = x) then EmptyString
      else String c r'
  end.

(** [s.startswith(p)] *)
Fixpoint startswith (p s : string) : bool :=
  match p, s with
  | EmptyString, _ => true
  | String a p', String b s' => bool_decide (a = b) && startswith p' s'
  | String _ _, EmptyString => false
  end.

(** [s[n:]] *)
Fixpoint drop (n : nat) (s : string) : string :=
  match n, s with
  | O, _ => s
  | S n', String _ r => drop n' r
  | S _, EmptyString => EmptyString
  end.

(** [s[:n]] *)
Fixpoint take (n : nat) (s : string) : string :=
  match n, s with
  | S n', String c r => String c (take n' r)
  | _, _ => EmptyString
  end.

(** [re.sub('^' + p, '', s)] for a literal [p]: the anchor lets the
    pattern match at offset 0 only, so at most one copy is removed. *)
Definition sub_prefix (p s : string) : string :=
  if startswith p s then drop (String.length p) s else s.

(** [s.split(sep)] for a one-character separator: never the empty list,
    splitting the empty string gives one empty field. *)
Fixpoint split (sep : ascii) (s : string) : list string :=
  match s with
  | EmptyString => [EmptyString]
  | String c r =>
      if bool_decide (c = sep) then EmptyString :: split sep r
      else match split sep r with
           | [] => [String c EmptyString]
           | w :: ws => String c w :: ws
           end
  end.

(** [x or ''] for an optional string. *)
Definition or_empty (x : option string) : string := default EmptyString x.

End Str.

(** ** [normalize_tag] *)

(** [[
def normalize_tag(tag: str) -> str:
    tag = (tag or '').strip()
    tag = re.sub(r'^version/', '', tag)
    tag = re.sub(r'^v', '', tag)
    return tag
]]
    The argument is what [rel.get('tag_name')] gives: [None] when the
    record has no such field (or a JSON null). *)
Definition normalize_tag (tag : option string) : string :=
  let tag := Str.strip (Str.or_empty tag) in
  let tag := Str.sub_prefix "version/" tag in
  let tag := Str.sub_prefix "v" tag in
  tag.

(** ** [parse_link_header] *)

Module Re.

Definition dquote : ascii := ascii_of_nat 34.
Definition newline : ascii := ascii_of_nat 10.

(** A literal character of the pattern. *)
Definition lit (c : ascii) (s : string) : option string :=
  match s with
  | String a r => if bool_decide (a = c) then Some r else None
  | EmptyString => None
  end.

(** A literal word of the pattern. *)
Definition word (p : string) (s : string) : option string :=
  if Str.startswith p s then Some (Str.drop (String.length p) s) else None.

(** The longest prefix free of [x], and what follows it. *)
Fixpoint span_not (x : ascii) (s : string) : string * string :=
  match s with
  | EmptyString => (EmptyString, EmptyString)
  | String c r =>
      if bool_decide (c = x) then (EmptyString, s)
      else let '(a, b) := span_not x r in (String c a, b)
  end.

(** The group [([^x]+)]: greedy, at least one character. The character
    after the group is [x] or the end of the subject, so giving back
    characters can never make the rest of the pattern match. *)
Definition many1_not (x : ascii) (s : string) : option (string * string) :=
  let '(a, b) := span_not x s in
  if Str.is_empty a then None else Some (a, b).

(** [\s*]: greedy; the pattern goes on with the letter r, which is not
    whitespace, so the longest run is the only candidate. *)
Definition spaces (s : string) : string := Str.lstrip s.

(** [$] without MULTILINE: the end of the subject, or the position just
    before a newline that ends it. *)
Definition at_end (s : string) : bool :=
  match s with
  | EmptyString => true
  | String c EmptyString => bool_decide (c = newline)
  | _ => false
  end.

(** [re.match(r'^<([^>]+)>;\s*rel=Q([^Q]+)Q$', part)], where Q stands
    for the double quote character: the groups [(url, rel)] on a
    match. *)
Definition match_link (part : string) : option (string * string) :=
  r ← lit "<" part;
  '(url, r) ← many1_not ">" r;
  r ← lit ">" r;
  r ← lit ";" r;
  r ← word "rel=" (spaces r);
  r ← lit dquote r;
  '(rel, r) ← many1_not dquote r;
  r ← lit dquote r;
  if at_end r then Some (url, rel) else None.

End Re.

(** [[
def parse_link_header(link: str) -> Dict[str, str]:
    out: Dict[str, str] = {}
    for part in (link or '').split(','):
        part = part.strip()
        m = re.match(r'^<([^>]+)>;\s*rel=Q([^Q]+)Q$', part)   # Q: double quote
        if m:
            url, rel = m.group(1), m.group(2)
            out[rel] = url
    return out
]] *)
Definition parse_link_header (link : option string) : gmap string string :=
  foldl (λ out part,
           let part := Str.strip part in
           match Re.match_link part with
           | Some (url, rel) => <[rel := url]> out
           | None => out
           end)
        ∅ (Str.split "," (Str.or_empty link)).

(** [d.get('next', '')] *)
Definition get_next (d : gmap string string) : string :=
  default EmptyString (d !! "next").

(** ** Data of the run *)

(** One release record of an index page; only [tag_name] is read. [None]
    is a record without that field, or with a null or otherwise falsy
    value there ([tag or ''] gives the empty string for all of them). *)
Record release := Release { tag_name : option string }.

(** Exceptions, all of them subclasses of [Exception]. [HTTPError] is what
    urllib raises for a response outside 2xx; it carries the status code
    and the body ([None] when reading the body fails). *)
Inductive exn :=
| HTTPError (code : Z) (body : option string)
| URLError
| TimeoutError
| ValueError
| EOFError
| OtherException.

(** [urllib.request.Request(url, headers=..., method=...)] *)
Record request := MkRequest {
  full_url : string;
  req_headers : list (string * string);
  req_method : string
}.

(** What the controller reads off a response: [resp.status], the [Link]
    header ([resp.headers.get('Link')]) and the decoded body.
    [resp_releases] is [None] when [json.loads], the iteration over the
    decoded value or [rel.get] raises, that is when the body is not a JSON
    array of objects whose [tag_name] is a string or falsy. *)
Record http_response := MkResponse {
  resp_status : Z;
  resp_link : option string;
  resp_releases : option (list release)
}.

(** A hit of the probing phase: [(ver, url, status)]. *)
Definition hit : Type := string * string * Z.

(** The text handed to [ProgressLine.update], without the bar and the
    rate, which are functions of the fields kept here and of the clock. *)
Inductive progress :=
| ProgressFetch (page collected : nat)
| ProgressProbe (i total : nat) (ver : string) (status : Z).

(** The lines written with [eprint], by their content. *)
Inductive message :=
| MsgPhase1
| MsgRepo (repo : string)
| MsgTokenTip
| MsgDebugGet (url : string)
| MsgApiError (code : Z)
| MsgApiBody (prefix : string)
| MsgRateLimitHint
| MsgFetchFailed (e : exn)
| MsgFetched (n : nat)
| MsgBlank
| MsgNoBaseUrl
| MsgNoReleases
| MsgPhase2
| MsgBase (base_url : string)
| MsgPath
| MsgChecking (i total : nat) (ver : string) (status : Z)
| MsgFinalResult
| MsgChecked (checked total : nat)
| MsgNoHit
| MsgFoundCount (n : nat)
| MsgHitLine (h : hit)
| MsgFound (h : hit).

(** The observable actions of a run, each with the answer it got. *)
Inductive event :=
| EvOpen (req : request) (timeout : Q) (answer : exn + http_response)
| EvSleep (secs : Q)
| EvUpdate (line : progress)
| EvDone
| EvEprint (msg : message)
| EvPrint
| EvInput (answer : option string).

(** The command line, as [argparse] leaves it in [args]. *)
Record arguments := MkArgs {
  arg_base_url : option string;
  arg_repo : string;
  arg_timeout : Q;
  arg_sleep : Q;
  arg_all : bool;
  arg_include_404 : bool;
  arg_verbose : bool;
  arg_no_ui : bool
}.

(** ** The outside world *)

(** The collaborators of the program: the request constructor of urllib
    (which refuses some URLs), the opener, and standard input. [World] is
    whatever state they depend on and change. *)
Class Platform := {
  World : Type;
  (** [None] when [Request(url, ...)] constructs, the exception otherwise *)
  request_refused : string → option exn;
  (** [opener.open(req, timeout=t)]: a response, or an exception *)
  opener_open : request → Q → World → (exn + http_response) * World;
  (** [input(prompt)]: the line read, [None] at end of input *)
  read_line : World → option string * World;
  (** [sys.stderr.isatty()] *)
  stderr_isatty : bool;
  (** [os.environ.get('GITHUB_TOKEN')] *)
  GITHUB_TOKEN : option string
}.

(** ** Effects: state, trace, exceptions, fuel *)

Inductive result (A : Type) :=
| Return (a : A)
| Raise (e : exn)
| OutOfFuel.
Arguments Return {A} a.
Arguments Raise {A} e.
Arguments OutOfFuel {A}.

Section Prog.
Context `{P : Platform}.

Record state := MkState { world : World; trace : list event }.

Definition M (A : Type) : Type := state → result A * state.

Definition ret {A} (a : A) : M A := λ s, (Return a, s).

Definition bind {A B} (m : M A) (k : A → M B) : M B :=
  λ s, match m s with
       | (Return a, s') => k a s'
       | (Raise e, s') => (Raise e, s')
       | (OutOfFuel, s') => (OutOfFuel, s')
       end.

Definition raise {A} (e : exn) : M A := λ s, (Raise e, s).

(** [try: m  except Exception as e: h e] *)
Definition try_except {A} (m : M A) (h : exn → M A) : M A :=
  λ s, match m s with
       | (Raise e, s') => h e s'
       | r => r
       end.

Definition emit (e : event) : M unit :=
  λ s, (Return tt, MkState (world s) (trace s ++ [e])).

End Prog.

Declare Scope prog_scope.
Delimit Scope prog_scope with prog.
Notation "'let*' x := m 'in' k" := (bind m (λ x, k))
  (at level 10, x pattern, m at level 100, k at level 200) : prog_scope.
Notation "m ;;; k" := (bind m (λ _, k))
  (at level 100, right associativity) : prog_scope.

Local Open Scope prog_scope.

(** [status in (200, 206)]: the probe found the file. *)
Definition is_hit (status : Z) : bool := (status =? 200) || (status =? 206).

(** [n or 0] on an integer. *)
Definition or_zero (n : Z) : Z := if n =? 0 then 0 else n.

(** Truthiness of an optional string ([if token:]). *)
Definition truthy (x : option string) : bool :=
  negb (Str.is_empty (Str.or_empty x)).

Definition GITHUB_API : string := "https://api.github.com".

Definition probe_headers : list (string * string) :=
  [("User-Agent", "authentik-admininterface-finder"); ("Range", "bytes=0-0")].

(** The headers of an index request; [Authorization] only with a token. *)
Definition github_headers (token : option string) : list (string * string) :=
  [("Accept", "application/vnd.github+json");
   ("X-GitHub-Api-Version", "2022-11-28");
   ("User-Agent", "authentik-admininterface-finder")]
  ++ (if truthy token
      then [("Authorization", "Bearer " +:+ Str.or_empty token)] else []).

(** The URL probed for one version. *)
Definition probe_url (base_url ver : string) : string :=
  base_url +:+ "/static/dist/admin/AdminInterface-" +:+ ver +:+ ".js".

(** The loop variables of [github_fetch_release_tags]. *)
Record fetch_state := MkFetch {
  fs_url : string;
  fs_page : nat;
  fs_versions : list string;
  fs_seen : gset string
}.

(** [[
for rel in data:
    tag = normalize_tag(rel.get('tag_name'))
    if not tag or tag in seen:
        continue
    seen.add(tag)
    versions.append(tag)
]] *)
Definition collect_release (acc : list string * gset string) (rel : release)
    : list string * gset string :=
  let '(versions, seen) := acc in
  let tag := normalize_tag (tag_name rel) in
  if Str.is_empty tag || bool_decide (tag ∈ seen) then (versions, seen)
  else (versions ++ [tag], {[tag]} ∪ seen).

Definition collect_page (data : list release)
    (acc : list string * gset string) : list string * gset string :=
  foldl collect_release acc data.

Section Prog.
Context `{P : Platform}.

(** [Request(url, headers=headers, method=method)] *)
Definition new_request (url : string) (headers : list (string * string))
    (method : string) : M request :=
  match request_refused url with
  | Some e => raise e
  | None => ret (MkRequest url headers method)
  end.

(** [opener.open(req, timeout=timeout)] *)
Definition open (req : request) (timeout : Q) : M http_response :=
  λ s, let '(answer, w) := opener_open req timeout (world s) in
       let s' := MkState w (trace s ++ [EvOpen req timeout answer]) in
       match answer with
       | inl e => (Raise e, s')
       | inr resp => (Return resp, s')
       end.

(** [input(prompt)] *)
Definition input : M string :=
  λ s, let '(answer, w) := read_line (world s) in
       let s' := MkState w (trace s ++ [EvInput answer]) in
       match answer with
       | None => (Raise EOFError, s')
       | Some line => (Return line, s')
       end.

Definition sleep (secs : Q) : M unit := emit (EvSleep secs).
Definition eprint (msg : message) : M unit := emit (EvEprint msg).
Definition ui_update (line : progress) : M unit := emit (EvUpdate line).
Definition ui_done : M unit := emit EvDone.

Definition when (b : bool) (m : M unit) : M unit := if b then m else ret tt.

(** [[
def probe_url_status(url, timeout) -> int:
  opener = build_opener(HTTPRedirectHandler())
  req = Request(url, headers={...}, method='GET')
  try:
      with opener.open(req, timeout=timeout) as resp:
          return int(getattr(resp, 'status', resp.getcode()))
  except HTTPError as e:
      return int(getattr(e, 'code', 0) or 0)
  except (URLError, TimeoutError, Exception):
      return 0
]]
    The request is built before the [try] block is entered. *)
Definition probe_url_status (url : string) (timeout : Q) : M Z :=
  let* req := new_request url probe_headers "GET" in
  try_except
    (let* resp := open req timeout in
     ret (resp_status resp))
    (λ e, match e with
          | HTTPError code _ => ret (or_zero code)
          | _ => ret 0
          end).

(** One turn of [while url:] in [github_fetch_release_tags]. *)
Definition fetch_page (timeout : Q) (token : option string)
    (verbose : bool) (st : fetch_state) : M fetch_state :=
  ui_update (ProgressFetch (fs_page st) (length (fs_versions st))) ;;;
  when verbose (eprint (MsgDebugGet (fs_url st))) ;;;
  let* req := new_request (fs_url st) (github_headers token) "GET" in
  let* st' :=
    try_except
      (let* resp := open req timeout in
       let* data := match resp_releases resp with
                    | Some data => ret data
                    | None => raise OtherException
                    end in
       let '(versions, seen) :=
         collect_page data (fs_versions st, fs_seen st) in
       let link := Some (Str.or_empty (resp_link resp)) in
       let url := get_next (parse_link_header link) in
       ret (MkFetch url (fs_page st) versions seen))
      (λ e, match e with
            | HTTPError code body =>
                ui_done ;;;
                eprint (MsgApiError code) ;;;
                when (truthy body)
                     (eprint (MsgApiBody (Str.take 800 (Str.or_empty body)))) ;;;
                eprint MsgRateLimitHint ;;;
                raise e
            | _ =>
                ui_done ;;;
                eprint (MsgFetchFailed e) ;;;
                raise e
            end) in
  let st'' := MkFetch (fs_url st') (S (fs_page st'))
                      (fs_versions st') (fs_seen st') in
  sleep (1 # 20) ;;;
  ret st''.

(** [while url: ...]; [fuel] bounds the number of turns. *)
Fixpoint fetch_loop (fuel : nat) (timeout : Q) (token : option string)
    (verbose : bool) (st : fetch_state) : M fetch_state :=
  if Str.is_empty (fs_url st) then ret st
  else match fuel with
       | O => λ s, (OutOfFuel, s)
       | S fuel' =>
           let* st' := fetch_page timeout token verbose st in
           fetch_loop fuel' timeout token verbose st'
       end.

Definition first_page_url (repo : string) : string :=
  GITHUB_API +:+ "/repos/" +:+ repo +:+ "/releases?per_page=100&page=1".

Definition github_fetch_release_tags (fuel : nat) (repo : string)
    (timeout : Q) (token : option string) (verbose : bool)
    : M (list string) :=
  eprint MsgPhase1 ;;;
  eprint (MsgRepo repo) ;;;
  when (negb (truthy token)) (eprint MsgTokenTip) ;;;
  let* st := fetch_loop fuel timeout token verbose
               (MkFetch (first_page_url repo) 1 [] ∅) in
  ui_done ;;;
  eprint (MsgFetched (length (fs_versions st))) ;;;
  eprint MsgBlank ;;;
  ret (fs_versions st).

(** [[
for i, ver in enumerate(versions, start=1):
  url = f'{base_url}/static/dist/admin/AdminInterface-{ver}.js'
  status = probe_url_status(url, timeout=args.timeout)
  checked += 1
  if ui_enabled: ... probe_ui.update(line)
  elif args.verbose: eprint(...)
  if status in (200, 206):
      found.append((ver, url, status))
      if not args.all:
          break
  if args.sleep > 0:
      time.sleep(args.sleep)
]]
    The result is [(found, checked)] when the loop is left. *)
Fixpoint probe_loop (args : arguments) (ui_enabled : bool)
    (base_url : string) (total i : nat) (versions : list string)
    (found : list hit) (checked : nat) : M (list hit * nat) :=
  match versions with
  | [] => ret (found, checked)
  | ver :: rest =>
      let url := probe_url base_url ver in
      let* status := probe_url_status url (arg_timeout args) in
      let checked := S checked in
      (if ui_enabled then ui_update (ProgressProbe i total ver status)
       else when (arg_verbose args)
                 (eprint (MsgChecking i total ver status))) ;;;
      let next (found : list hit) : M (list hit * nat) :=
        when (negb (Qle_bool (arg_sleep args) 0)) (sleep (arg_sleep args)) ;;;
        probe_loop args ui_enabled base_url total (S i) rest found checked in
      if is_hit status then
        let found := found ++ [(ver, url, status)] in
        if negb (arg_all args) then ret (found, checked)
        else next found
      else next found
  end.

(** [main], from the parsed arguments on; the result is its return
    value, which [raise SystemExit(main())] makes the exit code. *)
Definition main (fuel : nat) (args : arguments) : M Z :=
  let base_url := Str.strip (Str.or_empty (arg_base_url args)) in
  let* base_url :=
    (if Str.is_empty base_url
     then let* line := input in ret (Str.strip line)
     else ret base_url) in
  let base_url := Str.rstrip_char "/" base_url in
  if Str.is_empty base_url then
    eprint MsgNoBaseUrl ;;; ret 2
  else
    let use_color := stderr_isatty && negb (arg_no_ui args) in
    let ui_enabled := stderr_isatty && negb (arg_no_ui args) in
    let token := if truthy GITHUB_TOKEN then GITHUB_TOKEN else None in
    let* fetched :=
      try_except
        (let* versions :=
           github_fetch_release_tags fuel (arg_repo args)
             (arg_timeout args) token (arg_verbose args) in
         ret (Some versions))
        (λ _, ret None) in
    match fetched with
    | None => ret 1
    | Some [] => eprint MsgNoReleases ;;; ret 1
    | Some versions =>
        eprint MsgPhase2 ;;;
        eprint (MsgBase base_url) ;;;
        eprint MsgPath ;;;
        eprint MsgBlank ;;;
        let total := length versions in
        let* (found, checked) :=
          probe_loop args ui_enabled base_url total 1 versions [] 0 in
        ui_done ;;;
        eprint MsgBlank ;;;
        eprint MsgFinalResult ;;;
        eprint (MsgChecked checked total) ;;;
        emit EvPrint ;;;
        match found with
        | [] => eprint MsgNoHit ;;; ret 3
        | first :: _ =>
            when (arg_all args)
                 (eprint (MsgFoundCount (length found)) ;;;
                  foldr (λ h k, eprint (MsgHitLine h) ;;; k) (ret tt) found) ;;;
            eprint (MsgFound first) ;;;
            ret 0
        end
    end.

End Prog.

(** ** A concrete platform *)

(** The URL check of [urllib.request.Request]: the constructor unwraps
    the URL, cuts the fragment and raises [ValueError] (unknown url type)
    when what is left does not start with a scheme, that is with one or
    more characters other than slash and colon followed by a colon. *)
Module Urllib.

Fixpoint last_char (s : string) : option ascii :=
  match s with
  | EmptyString => None
  | String c EmptyString => Some c
  | String _ r => last_char r
  end.

Fixpoint drop_last (s : string) : string :=
  match s with
  | EmptyString => EmptyString
  | String _ EmptyString => EmptyString
  | String c r => String c (drop_last r)
  end.

(** [urllib.parse.unwrap] *)
Definition unwrap (url : string) : string :=
  let url := Str.strip url in
  let url :=
    if Str.startswith "<" url && bool_decide (last_char url = Some ">"%char)
    then Str.strip (drop_last (Str.drop 1 url)) else url in
  if Str.startswith "URL:" url then Str.strip (Str.drop 4 url) else url.

(** [url.rpartition('#')]: the part before the last hash sign, if any. *)
Fixpoint before_last_hash (s : string) : option string :=
  match s with
  | EmptyString => None
  | String c r =>
      match before_last_hash r with
      | Some p => Some (String c p)
      | None => if bool_decide (c = "#"%char) then Some EmptyString else None
      end
  end.

(** [_splittag], first component *)
Definition splittag (url : string) : string :=
  default url (before_last_hash url).

(** [_splittype] finds a type: the subject starts with [([^/:]+):]. *)
Fixpoint has_type_from (some : bool) (s : string) : bool :=
  match s with
  | EmptyString => false
  | String c r =>
      if bool_decide (c = ":"%char) then some
      else if bool_decide (c = "/"%char) then false
      else has_type_from true r
  end.

Definition request_refused (url : string) : option exn :=
  if has_type_from false (splittag (unwrap url)) then None
  else Some ValueError.

End Urllib.

(** A server that answers by URL alone; the world counts the requests
    made so far. *)
Definition table_platform (net : string → exn + http_response)
    (stdin : option string) (tty : bool) (token : option string) : Platform :=
  {| World := nat;
     request_refused := Urllib.request_refused;
     opener_open := λ req _ w, (net (full_url req), S w);
     read_line := λ w, (stdin, w);
     stderr_isatty := tty;
     GITHUB_TOKEN := token |}.

(** * Vocabulary of the properties *)

(** Every character of [s] is whitespace. *)
Fixpoint all_space (s : string) : bool :=
  match s with
  | EmptyString => true
  | String c r => Str.isspace c && all_space r
  end.

(** The specification of the enumerator's output, after the design
    document: of a sequence of normalised tags, the entry at position [i]
    is kept when it is not empty and does not occur at an earlier
    position. *)
Definition first_occurrences (l : list string) : list string :=
  omap (λ i, x ← l !! i;
             if decide (x ≠ EmptyString ∧ x ∉ take i l) then Some x else None)
       (seq 0 (length l)).

(** The same, relative to a set of values seen before the sequence
    starts. *)
Definition first_occurrences_from (seen : gset string) (l : list string)
    : list string :=
  omap (λ i, x ← l !! i;
             if decide (x ≠ EmptyString ∧ (x ∉ seen) ∧ x ∉ take i l)
             then Some x else None)
       (seq 0 (length l)).

(** The pages the index served, in the order of the requests: the release
    lists of the answered [opener.open] calls of a trace. *)
Definition fetched_pages (evs : list event) : list (list release) :=
  omap (λ e, match e with
             | EvOpen _ _ (inr resp) => resp_releases resp
             | _ => None
             end) evs.

(** The raw tags consumed, in upstream page order. *)
Definition fetched_tags (evs : list event) : list (option string) :=
  tag_name <$> concat (fetched_pages evs).

(** What a trace shows of the enumeration: the progress reports, as
    (page index, candidates collected), and the pages fetched. *)
Definition enum_view (evs : list event) : list (nat * nat + list release) :=
  omap (λ e, match e with
             | EvUpdate (ProgressFetch page collected) =>
                 Some (inl (page, collected))
             | EvOpen _ _ (inr resp) => inr <$> resp_releases resp
             | _ => None
             end) evs.

(** The reports and fetches of an enumeration that starts at page index
    [page] with [acc] collected and is served [pages]: each fetch is
    preceded by one report, which shows the index of the page about to be
    fetched and the number of candidates collected from the pages before
    it. *)
Fixpoint report_before_fetch (page : nat) (acc : list string * gset string)
    (pages : list (list release)) : list (nat * nat + list release) :=
  match pages with
  | [] => []
  | data :: rest =>
      inl (page, length acc.1) :: inr data
        :: report_before_fetch (S page) (collect_page data acc) rest
  end.

(** What is written when a page fetch raises [e]. *)
Definition fetch_error_events (e : exn) : list event :=
  match e with
  | HTTPError code body =>
      [EvDone; EvEprint (MsgApiError code)]
      ++ (if truthy body
          then [EvEprint (MsgApiBody (Str.take 800 (Str.or_empty body)))]
          else [])
      ++ [EvEprint MsgRateLimitHint]
  | _ => [EvDone; EvEprint (MsgFetchFailed e)]
  end.

(** The state a page leaves behind. *)
Definition after_page (st : fetch_state) (resp : http_response)
    (data : list release) : fetch_state :=
  let acc := collect_page data (fs_versions st, fs_seen st) in
  MkFetch (get_next (parse_link_header (Some (Str.or_empty (resp_link resp)))))
          (S (fs_page st)) acc.1 acc.2.

(** The index request for a URL. *)
Definition github_request (url : string) (token : option string) : request :=
  MkRequest url (github_headers token) "GET".

(** The probe request for a URL. *)
Definition probe_request (url : string) : request :=
  MkRequest url probe_headers "GET".

(** The status the probe reads off an answer of the opener. *)
Definition answer_status (answer : exn + http_response) : Z :=
  match answer with
  | inr resp => resp_status resp
  | inl (HTTPError code _) => or_zero code
  | inl _ => 0
  end.

Section TraceVocabulary.
Context `{P : Platform}.

(** A state with more events at the end of its trace. *)
Definition add_events (s : state) (evs : list event) : state :=
  MkState (world s) (trace s ++ evs).

End TraceVocabulary.

(** The events of one successful turn of the page loop. *)
Definition page_events (timeout : Q) (token : option string) (verbose : bool)
    (st : fetch_state) (resp : http_response) : list event :=
  [EvUpdate (ProgressFetch (fs_page st) (length (fs_versions st)))]
  ++ (if verbose then [EvEprint (MsgDebugGet (fs_url st))] else [])
  ++ [EvOpen (github_request (fs_url st) token) timeout (inr resp);
      EvSleep (1 # 20)].

(** The events around the page loop in [github_fetch_release_tags]. *)
Definition prelude_events (repo : string) (token : option string) : list event :=
  [EvEprint MsgPhase1; EvEprint (MsgRepo repo)]
  ++ (if truthy token then [] else [EvEprint MsgTokenTip]).

Definition postlude_events (n : nat) : list event :=
  [EvDone; EvEprint (MsgFetched n); EvEprint MsgBlank].

(** The progress reports of an enumeration view. *)
Definition reports_of (view : list (nat * nat + list release)) : list (nat * nat) :=
  omap (λ x, match x with inl r => Some r | inr _ => None end) view.

(** C9 as the design document has it: every page fetch of a trace is
    followed, later in the trace, by a progress report. *)
Definition is_report (e : event) : bool :=
  match e with EvUpdate (ProgressFetch _ _) => true | _ => false end.

Fixpoint report_follows_each_fetch (evs : list event) : bool :=
  match evs with
  | [] => true
  | EvOpen _ _ _ :: rest =>
      existsb is_report rest && report_follows_each_fetch rest
  | _ :: rest => report_follows_each_fetch rest
  end.


(** The hits among candidates probed in order: the candidates whose probe
    status is a success, with the URL and the status, in the order of the
    candidates. *)
Definition hits_of (versions : list string) (probes : list (string * Z))
    : list hit :=
  filter (λ h : hit, is_hit h.2 = true)
         (zip_with (λ ver p, (ver, p.1, p.2)) versions probes).

(** What the loop shows after a probe. *)
Definition shown_events (args : arguments) (ui_enabled : bool)
    (i total : nat) (ver : string) (status : Z) : list event :=
  if ui_enabled then [EvUpdate (ProgressProbe i total ver status)]
  else if arg_verbose args then [EvEprint (MsgChecking i total ver status)]
  else [].

(** The pause at the end of a turn of the probing loop. *)
Definition pause_events (args : arguments) : list event :=
  if negb (Qle_bool (arg_sleep args) 0) then [EvSleep (arg_sleep args)] else [].

Global Instance Q_eq_dec : EqDecision Q.
Proof. solve_decision. Defined.

(** The next request or pause of [evs] is a pause of [d] seconds. *)
Fixpoint pause_follows (d : Q) (evs : list event) : bool :=
  match evs with
  | [] => false
  | EvSleep d' :: _ => bool_decide (d' = d)
  | EvOpen _ _ _ :: _ => false
  | _ :: rest => pause_follows d rest
  end.

(** C8 as the design document has it: every request of [evs] is followed
    by a pause of [d] seconds before the next request. *)
Fixpoint paused_after_each_probe (d : Q) (evs : list event) : bool :=
  match evs with
  | [] => true
  | EvOpen _ _ _ :: rest =>
      pause_follows d rest && paused_after_each_probe d rest
  | _ :: rest => paused_after_each_probe d rest
  end.

(** No pause at all in [evs]. *)
Definition no_pause (evs : list event) : bool :=
  forallb (λ e, match e with EvSleep _ => false | _ => true end) evs.

(** The token [main] hands to the enumerator:
    [os.environ.get('GITHUB_TOKEN') or None]. *)
Definition env_token `{P : Platform} : option string :=
  if truthy GITHUB_TOKEN then GITHUB_TOKEN else None.

(** Whether the progress line is drawn: [stderr_is_tty() and not args.no_ui]. *)
Definition ui_enabled_for `{P : Platform} (args : arguments) : bool :=
  stderr_isatty && negb (arg_no_ui args).

(** How [main] comes to its base URL: from the command line when the
    option is not blank, otherwise from a line read at the prompt; in both
    cases with surrounding whitespace and trailing slashes removed. [s1]
    is the state once the base URL is known. *)
Definition resolves `{P : Platform} (args : arguments) (s : state)
    (base_url : string) (s1 : state) : Prop :=
  let given := Str.strip (Str.or_empty (arg_base_url args)) in
  (Str.is_empty given = false
   ∧ base_url = Str.rstrip_char "/" given ∧ s1 = s)
  ∨ (Str.is_empty given = true
     ∧ ∃ line w,
         read_line (world s) = (Some line, w)
         ∧ base_url = Str.rstrip_char "/" (Str.strip line)
         ∧ s1 = MkState w (trace s ++ [EvInput (Some line)])).

(** What is written before the first probe. *)
Definition phase2_events (base_url : string) : list event :=
  [EvEprint MsgPhase2; EvEprint (MsgBase base_url); EvEprint MsgPath;
   EvEprint MsgBlank].

(** What is written once the probing loop is left. *)
Definition final_events (args : arguments) (found : list hit)
    (checked total : nat) : list event :=
  [EvDone; EvEprint MsgBlank; EvEprint MsgFinalResult;
   EvEprint (MsgChecked checked total); EvPrint]
  ++ match found with
     | [] => [EvEprint MsgNoHit]
     | first :: _ =>
         (if arg_all args
          then EvEprint (MsgFoundCount (length found))
                 :: ((λ h, EvEprint (MsgHitLine h)) <$> found)
          else [])
         ++ [EvEprint (MsgFound first)]
     end.

(** ** Sample servers, for the closed examples *)

Module Sample.

Definition quote : string := String Re.dquote EmptyString.

(** A [Link] header value naming one next page. *)
Definition link_next (u : string) : string :=
  "<" +:+ u +:+ ">; rel=" +:+ quote +:+ "next" +:+ quote.

Definition page1_url : string :=
  "https://api.github.com/repos/goauthentik/authentik/releases?per_page=100&page=1".
Definition page2_url : string :=
  "https://api.github.com/repositories/230885748/releases?per_page=100&page=2".

Definition page1 : http_response :=
  MkResponse 200 (Some (link_next page2_url))
    (Some [Release (Some "version/2024.2.1"); Release (Some "v2024.2.1");
           Release None; Release (Some "version/2023.10.7")]).

Definition page2 : http_response :=
  MkResponse 200 None
    (Some [Release (Some "version/2023.10.6"); Release (Some " 2023.10.7 ")]).

(** An instance that serves two index pages and, of the three versions
    they list, has the AdminInterface file of the last two. *)
Definition net (u : string) : exn + http_response :=
  if decide (u = page1_url) then inr page1
  else if decide (u = page2_url) then inr page2
  else if decide (u = probe_url "https://sso.example.com" "2023.10.7")
       then inr (MkResponse 206 None None)
  else if decide (u = probe_url "https://sso.example.com" "2023.10.6")
       then inr (MkResponse 200 None None)
  else inl (HTTPError 404 None).

Definition platform : Platform := table_platform net None false None.

Definition start : @state platform := @MkState platform 0%nat [].

Definition args (base_url : string) (all : bool) : arguments :=
  MkArgs (Some base_url) "goauthentik/authentik" 20 (1 # 2) all false false false.

(** An index with a single page that lists a single release. *)
Definition single_page : http_response :=
  MkResponse 200 None (Some [Release (Some "version/2024.2.1")]).

Definition single_net (u : string) : exn + http_response :=
  if decide (u = page1_url) then inr single_page
  else if decide (u = probe_url "https://sso.example.com" "2024.2.1")
       then inr (MkResponse 200 None None)
  else inl (HTTPError 404 None).

Definition single_platform : Platform := table_platform single_net None false None.



(** An index whose first page lists no release and names a next page. *)
Definition gap_page : http_response :=
  MkResponse 200 (Some (link_next page2_url)) (Some []).

Definition gap_net (u : string) : exn + http_response :=
  if decide (u = page1_url) then inr gap_page
  else if decide (u = page2_url) then inr page2
  else inl (HTTPError 404 None).

Definition gap_platform : Platform := table_platform gap_net None false None.

End Sample.

(** * The rest of the program *)

(** ** Colours *)

Definition ESC : ascii := ascii_of_nat 27.

(** [[
def color(s, code, enable):
    if not enable:
        return s
    return f'\033[{code}m{s}\033[0m'
]] *)
Definition color (s code : string) (enable : bool) : string :=
  if negb enable then s
  else String ESC ("[" +:+ code +:+ "m" +:+ s +:+ String ESC "[0m").

Definition dim (s : string) (enable : bool) : string := color s "2" enable.
Definition bold (s : string) (enable : bool) : string := color s "1" enable.
Definition green (s : string) (enable : bool) : string := color s "32" enable.
Definition yellow (s : string) (enable : bool) : string := color s "33" enable.
Definition red (s : string) (enable : bool) : string := color s "31" enable.
Definition cyan (s : string) (enable : bool) : string := color s "36" enable.

(** [str(n)] on an integer. *)
Definition str_int (n : Z) : string := pretty n.

(** The status shown on the live line, in [main]:
[[
status_txt = (
    green(str(status), use_color) if status in (200, 206) else
    yellow(str(status), use_color) if status in (301, 302, 307, 308) else
    red(str(status), use_color) if status == 0 else
    dim(str(status), use_color)
)
]] *)
Definition status_txt (status : Z) (use_color : bool) : string :=
  if (status =? 200) || (status =? 206) then green (str_int status) use_color
  else if (status =? 301) || (status =? 302) || (status =? 307) || (status =? 308)
       then yellow (str_int status) use_color
  else if status =? 0 then red (str_int status) use_color
  else dim (str_int status) use_color.

(** [[
extra = ''
if args.include_404 or status not in (404,):
    extra = f'  status {status_txt}'
else:
    extra = '  status ' + dim('404', use_color)
]] *)
Definition status_extra (include_404 : bool) (status : Z) (use_color : bool)
    : string :=
  if include_404 || negb (status =? 404)
  then "  status " +:+ status_txt status use_color
  else "  status " +:+ dim "404" use_color.

(** ** [ProgressLine] *)

(** [[
@dataclass
class ProgressLine:
    enabled: bool
    last_render_ts: float = 0.0
    min_interval: float = 0.05  # seconds
    last_line_len: int = 0
]] *)
Record ProgressLine := MkProgressLine {
  enabled : bool;
  last_render_ts : Q;
  min_interval : Q;
  last_line_len : nat
}.

(** [ProgressLine(enabled=e)] *)
Definition new_progress_line (e : bool) : ProgressLine :=
  MkProgressLine e 0 (1 # 20) 0.

(** What a method of [ProgressLine] writes to standard error: a carriage
    return, the line and its padding, at a clock reading; or a newline. *)
Inductive ui_write :=
| Rendered (now : Q) (line pad : string)
| Newline.

(** [' ' * n] *)
Fixpoint spaces (n : nat) : string :=
  match n with
  | O => EmptyString
  | S n' => String " " (spaces n')
  end.

(** [[
def update(self, line):
    if not self.enabled:
        return
    now = time.time()
    if now - self.last_render_ts < self.min_interval:
        return
    self.last_render_ts = now
    pad = ' ' * max(0, self.last_line_len - len(line))
    sys.stderr.write('\r' + line + pad)
    sys.stderr.flush()
    self.last_line_len = len(line)
]]
    [now] is what [time.time()] returns if it is called. *)
Definition update (self : ProgressLine) (line : string) (now : Q)
    : ProgressLine * list ui_write :=
  if negb (enabled self) then (self, [])
  else if negb (Qle_bool (min_interval self) (now - last_render_ts self))
  then (self, [])
  else
    let pad :=
      spaces (Z.to_nat (Z.max 0 (Z.of_nat (last_line_len self)
                                 - Z.of_nat (String.length line)))) in
    (MkProgressLine (enabled self) now (min_interval self) (String.length line),
     [Rendered now line pad]).

(** [[
def done(self):
    if not self.enabled:
        return
    sys.stderr.write('\n')
    sys.stderr.flush()
    self.last_line_len = 0
]] *)
Definition done (self : ProgressLine) : ProgressLine * list ui_write :=
  if negb (enabled self) then (self, [])
  else (MkProgressLine (enabled self) (last_render_ts self) (min_interval self) 0,
        [Newline]).

(** A call of one of the two methods. *)
Inductive ui_call :=
| CallUpdate (line : string) (now : Q)
| CallDone.

Definition ui_step (self : ProgressLine) (c : ui_call)
    : ProgressLine * list ui_write :=
  match c with
  | CallUpdate line now => update self line now
  | CallDone => done self
  end.

(** A sequence of calls on one object: its final state and all it wrote. *)
Fixpoint ui_run (self : ProgressLine) (calls : list ui_call)
    : ProgressLine * list ui_write :=
  match calls with
  | [] => (self, [])
  | c :: rest =>
      let '(self1, out1) := ui_step self c in
      let '(self2, out2) := ui_run self1 rest in
      (self2, out1 ++ out2)
  end.

(** ** More vocabulary *)

(** The clock readings of the renders among some writes. *)
Definition render_times (out : list ui_write) : list Q :=
  omap (λ w, match w with Rendered now _ _ => Some now | Newline => None end) out.

(** Consecutive readings are at least [d] apart, the first one at least
    [d] after [t0]. *)
Fixpoint spaced (d t0 : Q) (ts : list Q) : Prop :=
  match ts with
  | [] => True
  | t :: rest => (t0 + d <= t)%Q ∧ spaced d t rest
  end.

(** Every render of [out] covers the line rendered before it: the text it
    writes after the carriage return is its line followed by spaces only,
    and is at least as long as the line last rendered, [width] being the
    length of that line at the start. A newline starts over. *)
Fixpoint covering (width : nat) (out : list ui_write) : Prop :=
  match out with
  | [] => True
  | Rendered _ line pad :: rest =>
      all_space pad = true
      ∧ String.length (line +:+ pad) = Nat.max (String.length line) width
      ∧ covering (String.length line) rest
  | Newline :: rest => covering 0 rest
  end.

(** [c] occurs in [s]. *)
Fixpoint has_char (c : ascii) (s : string) : bool :=
  match s with
  | EmptyString => false
  | String a r => bool_decide (a = c) || has_char c r
  end.

(** One entry of a [Link] header: the URL in angle brackets, a semicolon,
    a space, and the relation in double quotes. *)
Definition link_entry (url rel : string) : string :=
  "<" +:+ url +:+ ">; rel=" +:+ String Re.dquote (rel +:+ String Re.dquote EmptyString).

(** A [Link] header: entries separated by a comma and a space. *)
Fixpoint link_header (entries : list (string * string)) : string :=
  match entries with
  | [] => EmptyString
  | [(url, rel)] => link_entry url rel
  | (url, rel) :: rest => link_entry url rel +:+ ", " +:+ link_header rest
  end.

(** An entry that survives the round trip: URL and relation are not
    empty and contain neither a comma nor their closing delimiter. *)
Definition entry_ok (e : string * string) : bool :=
  negb (Str.is_empty e.1) && negb (has_char ">" e.1) && negb (has_char "," e.1)
  && negb (Str.is_empty e.2) && negb (has_char Re.dquote e.2)
  && negb (has_char "," e.2).

(** The requests of a trace, with their timeouts and answers. *)
Definition opens (evs : list event) : list (request * Q * (exn + http_response)) :=
  omap (λ e, match e with
             | EvOpen req t answer => Some (req, t, answer)
             | _ => None
             end) evs.

(** The index requests follow the chain of next relations from [url]:
    each request is the index request for the URL the chain has reached,
    each answer is a response, and the chain ends where a response names
    no next page. *)
Fixpoint follows_next (timeout : Q) (token : option string) (url : string)
    (ops : list (request * Q * (exn + http_response))) : Prop :=
  match ops with
  | [] => Str.is_empty url = true
  | (req, t, answer) :: rest =>
      Str.is_empty url = false
      ∧ req = github_request url token ∧ t = timeout
      ∧ ∃ resp, answer = inr resp
                ∧ follows_next timeout token
                    (get_next (parse_link_header (resp_link resp))) rest
  end.

(** The same arguments with another base URL, or another search mode. *)
Definition with_base_url (args : arguments) (b : option string) : arguments :=
  MkArgs b (arg_repo args) (arg_timeout args) (arg_sleep args) (arg_all args)
         (arg_include_404 args) (arg_verbose args) (arg_no_ui args).


(** A request of a trace is an index request: it has the headers of the
    enumerator for [token], the method GET and the timeout given. *)
Definition index_op (timeout : Q) (token : option string)
    (op : request * Q * (exn + http_response)) : Prop :=
  op.1.1 = github_request (full_url op.1.1) token ∧ op.1.2 = timeout.

(** A request of a trace is a probe of a candidate under [base_url]. *)
Definition probe_op (base_url : string) (timeout : Q)
    (op : request * Q * (exn + http_response)) : Prop :=
  op.1.2 = timeout ∧ ∃ ver, op.1.1 = probe_request (probe_url base_url ver).

(** The request carries a header of that name. *)
Definition has_header (name : string) (req : request) : bool :=
  bool_decide (name ∈ (req_headers req).*1).


(** The pauses of a trace, and the lines written with [eprint]. *)
Definition sleeps (evs : list event) : list Q :=
  omap (λ e, match e with EvSleep d => Some d | _ => None end) evs.

Definition messages (evs : list event) : list message :=
  omap (λ e, match e with EvEprint m => Some m | _ => None end) evs.

Module Sample2.

(** An index whose first page names itself as the next page. *)
Definition cyclic_page : http_response :=
  MkResponse 200 (Some (Sample.link_next Sample.page1_url))
    (Some [Release (Some "version/2024.2.1")]).

Definition cyclic_net (u : string) : exn + http_response :=
  if decide (u = Sample.page1_url) then inr cyclic_page
  else inl (HTTPError 404 None).

Definition cyclic_platform : Platform := table_platform cyclic_net None false None.

(** An index that answers 403 with a body. *)
Definition limited_net (u : string) : exn + http_response :=
  inl (HTTPError 403 (Some "API rate limit exceeded")).

Definition limited_platform : Platform :=
  table_platform limited_net None false (Some "t0ken").

(** The sample instance, with standard input at its end. *)
Definition eof_platform : Platform := table_platform Sample.net None false None.



End Sample2.
(** * Properties *)

(** ** Strings *)

Module StrFacts.
Import Str.

Lemma is_empty_true s : is_empty s = true ↔ s = EmptyString.
Proof. destruct s; simpl; split; congruence. Qed.

Lemma lstrip_all_space l s : all_space l = true → lstrip (l +:+ s) = lstrip s.
Proof.
  induction l as [|c l IH]; simpl; [done|].
  intros [Hc Hl]%andb_true_iff. rewrite Hc. auto.
Qed.

Lemma lstrip_only_space r : all_space r = true → lstrip r = EmptyString.
Proof.
  induction r as [|c r IH]; simpl; [done|].
  intros [Hc Hr]%andb_true_iff. rewrite Hc. auto.
Qed.

Lemma rstrip_all_space r : all_space r = true → rstrip r = EmptyString.
Proof.
  induction r as [|c r IH]; simpl; [done|].
  intros [Hc Hr]%andb_true_iff. rewrite IH, Hc by done. done.
Qed.

Lemma rstrip_app_space s r :
  all_space r = true → rstrip (s +:+ r) = rstrip s.
Proof.
  intros Hr. induction s as [|c s IH]; simpl.
  - by apply rstrip_all_space.
  - by rewrite IH.
Qed.

Lemma strip_app_space s r :
  all_space r = true → strip (s +:+ r) = strip s.
Proof.
  intros Hr. unfold strip. induction s as [|c s IH]; simpl.
  - by rewrite lstrip_only_space.
  - destruct (isspace c); [done|].
    change (String c (s +:+ r)) with (String c s +:+ r).
    by apply rstrip_app_space.
Qed.

(** Padding a string with whitespace does not change what [strip]
    returns. *)
Lemma strip_padding l s r :
  all_space l = true → all_space r = true →
  strip (l +:+ s +:+ r) = strip s.
Proof.
  intros Hl Hr. unfold strip at 1. rewrite lstrip_all_space by done.
  by apply strip_app_space.
Qed.

Lemma startswith_app p s : startswith p (p +:+ s) = true.
Proof.
  induction p as [|c p IH]; simpl; [done|].
  by rewrite bool_decide_eq_true_2, IH.
Qed.

Lemma drop_app p s : drop (String.length p) (p +:+ s) = s.
Proof. induction p as [|c p IH]; simpl; done. Qed.

Lemma sub_prefix_app p s : sub_prefix p (p +:+ s) = s.
Proof. unfold sub_prefix. by rewrite startswith_app, drop_app. Qed.

Lemma sub_prefix_none p s : startswith p s = false → sub_prefix p s = s.
Proof. unfold sub_prefix. by intros ->. Qed.

Lemma rstrip_idemp s : rstrip (rstrip s) = rstrip s.
Proof.
  induction s as [|c s IH]; simpl; [done|].
  destruct (is_empty (rstrip s) && isspace c) eqn:E; simpl; [done|].
  by rewrite IH, E.
Qed.

Lemma lstrip_strip s : lstrip (strip s) = strip s.
Proof.
  unfold strip. induction s as [|c s IH]; simpl; [done|].
  destruct (isspace c) eqn:E; [done|].
  simpl. rewrite E, andb_false_r. simpl. by rewrite E.
Qed.

Lemma strip_idemp s : strip (strip s) = strip s.
Proof. unfold strip at 1. by rewrite lstrip_strip; unfold strip; rewrite rstrip_idemp. Qed.

Lemma strip_fixed_rstrip s : strip s = s → rstrip s = s.
Proof. intros H. rewrite <- H at 1. unfold strip. by rewrite rstrip_idemp. Qed.

Lemma strip_fixed_lstrip s : strip s = s → lstrip s = s.
Proof. intros H. rewrite <- H at 1. by rewrite lstrip_strip. Qed.

Lemma rstrip_nonspace c s : isspace c = false → rstrip (String c s) = String c (rstrip s).
Proof. intros H. simpl. by rewrite H, andb_false_r. Qed.

End StrFacts.

(** ** Normalisation *)

Section Normalize.
Import Str StrFacts.

Lemma strip_version_prefix t :
  rstrip t = t → strip ("version/" +:+ t) = "version/" +:+ t.
Proof.
  intros H. unfold strip. change (lstrip ("version/" +:+ t)) with ("version/" +:+ t).
  change ("version/" +:+ t) with
    (String "v" (String "e" (String "r" (String "s" (String "i"
      (String "o" (String "n" (String "/" t)))))))).
  rewrite !rstrip_nonspace by done. by rewrite H.
Qed.

Lemma strip_v_prefix t : rstrip t = t → strip ("v" +:+ t) = "v" +:+ t.
Proof.
  intros H. unfold strip. change (lstrip ("v" +:+ t)) with ("v" +:+ t).
  change ("v" +:+ t) with (String "v" t).
  rewrite rstrip_nonspace by done. by rewrite H.
Qed.

Lemma normalize_tag_stripped t :
  strip t = t → normalize_tag (Some t) = sub_prefix "v" (sub_prefix "version/" t).
Proof. intros H. unfold normalize_tag. simpl. by rewrite H. Qed.

(** C7 (as amended). Normalisation removes a leading version/ segment and
    then one leading v: both version/v1.2.3 and v1.2.3 give 1.2.3, a tag
    version/v followed by [t] gives [t], and the v is looked for only
    after the segment is gone. A tag that carries neither prefix is
    returned unchanged provided it has no whitespace at either end. *)
Theorem normalize_tag_prefixes :
  normalize_tag (Some "version/v1.2.3") = "1.2.3"
  ∧ normalize_tag (Some "v1.2.3") = "1.2.3"
  ∧ normalize_tag (Some "vversion/1.2.3") = "version/1.2.3"
  ∧ (∀ t, rstrip t = t → normalize_tag (Some ("version/v" +:+ t)) = t)
  ∧ (∀ t, rstrip t = t →
          normalize_tag (Some ("version/" +:+ t)) = sub_prefix "v" t)
  ∧ (∀ t, rstrip t = t → startswith "ersion/" t = false →
          normalize_tag (Some ("v" +:+ t)) = t)
  ∧ (∀ t, strip t = t →
          startswith "version/" t = false → startswith "v" t = false →
          normalize_tag (Some t) = t).
Proof.
  split_and!; try reflexivity.
  - intros t Ht. unfold normalize_tag. simpl or_empty.
    change ("version/v" +:+ t) with ("version/" +:+ ("v" +:+ t)).
    rewrite strip_version_prefix.
    + rewrite (sub_prefix_app "version/"). apply (sub_prefix_app "v").
    + change ("v" +:+ t) with (String "v" t).
      rewrite rstrip_nonspace by done. by rewrite Ht.
  - intros t Ht. unfold normalize_tag. simpl or_empty.
    rewrite strip_version_prefix by done. by rewrite sub_prefix_app.
  - intros t Ht Hv. unfold normalize_tag. simpl or_empty.
    rewrite strip_v_prefix by done.
    rewrite (sub_prefix_none "version/").
    + apply (sub_prefix_app "v").
    + simpl. simpl in Hv. exact Hv.
  - intros t Ht Hv1 Hv2. rewrite normalize_tag_stripped by done.
    rewrite (sub_prefix_none "version/") by done.
    by apply sub_prefix_none.
Qed.

(** The four general clauses at the tag 2024.2.1. *)
Lemma normalize_tag_prefixes_witness :
  normalize_tag (Some "version/v2024.2.1") = "2024.2.1"
  ∧ normalize_tag (Some "version/2024.2.1") = "2024.2.1"
  ∧ normalize_tag (Some "v2024.2.1") = "2024.2.1"
  ∧ normalize_tag (Some "2024.2.1") = "2024.2.1".
Proof.
  destruct normalize_tag_prefixes as (_ & _ & _ & H1 & H2 & H3 & H4).
  split_and!.
  - apply (H1 "2024.2.1"). reflexivity.
  - apply (H2 "2024.2.1"). reflexivity.
  - apply (H3 "2024.2.1"); reflexivity.
  - apply (H4 "2024.2.1"); reflexivity.
Defined.

(** C7 (as stated) fails: the string made of a space and the digit 1 is
    itself an output of the normaliser and carries neither prefix, yet
    normalising it changes it. *)
Lemma normalize_tag_unprefixed_changed :
  normalize_tag (Some "v 1") = " 1"
  ∧ startswith "version/" " 1" = false
  ∧ startswith "v" " 1" = false
  ∧ normalize_tag (Some " 1") ≠ " 1".
Proof. split_and!; [reflexivity..|]. by vm_compute. Qed.

(** C10. Whitespace around a tag is removed before the prefixes are looked
    for, so padding never changes the result; a missing tag normalises to
    the empty string; and a release without a tag leaves the collected
    versions and the seen set as they were, wherever it stands in a
    page. *)
Theorem normalize_tag_whitespace_and_missing :
  (∀ l t r, all_space l = true → all_space r = true →
            normalize_tag (Some (l +:+ t +:+ r)) = normalize_tag (Some t))
  ∧ (∀ t, normalize_tag (Some t) = normalize_tag (Some (strip t)))
  ∧ normalize_tag (Some " v1.2.3 ") = "1.2.3"
  ∧ normalize_tag None = EmptyString
  ∧ (∀ rel acc, tag_name rel = None → collect_release acc rel = acc)
  ∧ (∀ rel before after acc, tag_name rel = None →
       collect_page (before ++ rel :: after) acc
       = collect_page (before ++ after) acc).
Proof.
  assert (Hrel : ∀ rel acc, tag_name rel = None → collect_release acc rel = acc).
  { intros rel [vs seen] H. unfold collect_release. by rewrite H. }
  split_and!; try reflexivity; try done.
  - intros l t r Hl Hr. unfold normalize_tag. simpl or_empty.
    by rewrite strip_padding.
  - intros t. unfold normalize_tag. simpl or_empty. by rewrite strip_idemp.
  - intros rel before after acc H. unfold collect_page.
    rewrite !foldl_app. simpl. by rewrite Hrel.
Qed.

(** Padding and a record without tag, on concrete data. *)
Lemma normalize_tag_whitespace_and_missing_witness :
  normalize_tag (Some (" " +:+ "v2024.2.1" +:+ "  ")) = normalize_tag (Some "v2024.2.1")
  ∧ collect_page ([Release (Some "v1")] ++ Release None :: [Release (Some "v2")]) ([], ∅)
    = collect_page ([Release (Some "v1")] ++ [Release (Some "v2")]) ([], ∅).
Proof.
  destruct normalize_tag_whitespace_and_missing as (H1 & _ & _ & _ & _ & H2).
  split.
  - apply (H1 " " "v2024.2.1" "  "); reflexivity.
  - apply (H2 (Release None)). reflexivity.
Defined.

End Normalize.

(** ** The [Link] header *)

Section LinkHeader.

Lemma match_link_nonempty part url rel :
  Re.match_link part = Some (url, rel) →
  Str.is_empty url = false ∧ Str.is_empty rel = false.
Proof.
  unfold Re.match_link, Re.many1_not. intros H.
  destruct (Re.lit "<" part) as [r1|]; simpl in H; [|done].
  destruct (Re.span_not ">" r1) as [u r2].
  destruct (Str.is_empty u) eqn:Eu; simpl in H; [done|].
  destruct (Re.lit ">" r2) as [r3|]; simpl in H; [|done].
  destruct (Re.lit ";" r3) as [r4|]; simpl in H; [|done].
  destruct (Re.word "rel=" (Re.spaces r4)) as [r5|]; simpl in H; [|done].
  destruct (Re.lit Re.dquote r5) as [r6|]; simpl in H; [|done].
  destruct (Re.span_not Re.dquote r6) as [l r7].
  destruct (Str.is_empty l) eqn:El; simpl in H; [done|].
  destruct (Re.lit Re.dquote r7) as [r8|]; simpl in H; [|done].
  destruct (Re.at_end r8); [|done].
  by simplify_eq.
Qed.

(** No relation of a parsed header maps to the empty URL, so testing the
    URL kept for the next turn is testing whether the header named a next
    page. *)
Lemma parse_link_header_nonempty link rel url :
  parse_link_header link !! rel = Some url → Str.is_empty url = false.
Proof.
  unfold parse_link_header.
  generalize (Str.split "," (Str.or_empty link)).
  intros parts. revert rel url.
  assert (H0 : ∀ rel url, (∅ : gmap string string) !! rel = Some url →
                          Str.is_empty url = false) by done.
  revert H0. generalize (∅ : gmap string string).
  induction parts as [|part parts IH]; intros out Hout rel url; simpl.
  - apply Hout.
  - apply IH. intros rel' url'.
    destruct (Re.match_link (Str.strip part)) as [[u r]|] eqn:E; [|apply Hout].
    destruct (decide (r = rel')) as [->|Hne].
    + rewrite lookup_insert_eq. intros [= ->].
      by apply match_link_nonempty in E as [? ?].
    + rewrite lookup_insert_ne by done. apply Hout.
Qed.

Lemma get_next_empty link :
  Str.is_empty (get_next (parse_link_header link)) = true
  ↔ parse_link_header link !! "next" = None.
Proof.
  unfold get_next.
  destruct (parse_link_header link !! "next") as [u|] eqn:E; simpl.
  - apply parse_link_header_nonempty in E. rewrite E. split; done.
  - done.
Qed.

Lemma get_next_some link u :
  parse_link_header link !! "next" = Some u →
  get_next (parse_link_header link) = u ∧ Str.is_empty u = false.
Proof.
  intros E. unfold get_next. rewrite E. split; [done|].
  by apply parse_link_header_nonempty in E.
Qed.

Example parse_link_header_github :
  parse_link_header
    (Some ("<https://api.github.com/repositories/1/releases?page=2>; rel="
           +:+ Sample.quote +:+ "next" +:+ Sample.quote
           +:+ ", <https://api.github.com/repositories/1/releases?page=7>;   rel="
           +:+ Sample.quote +:+ "last" +:+ Sample.quote))
  = <["last" := "https://api.github.com/repositories/1/releases?page=7"]>
      (<["next" := "https://api.github.com/repositories/1/releases?page=2"]> ∅).
Proof. reflexivity. Qed.

Example parse_link_header_last_page :
  get_next
    (parse_link_header
       (Some ("<https://api.github.com/repositories/1/releases?page=1>; rel="
              +:+ Sample.quote +:+ "prev" +:+ Sample.quote
              +:+ ", <>; rel=" +:+ Sample.quote +:+ "next" +:+ Sample.quote
              +:+ ", next")))
  = EmptyString
  ∧ get_next (parse_link_header None) = EmptyString.
Proof. split; reflexivity. Qed.

End LinkHeader.

(** ** Deduplication *)

Section Dedup.
Implicit Types (l : list string) (seen : gset string).

Lemma omap_fmap_compose {A B C} (f : B → option C) (g : A → B) (l : list A) :
  omap f (g <$> l) = omap (f ∘ g) l.
Proof.
  induction l as [|a l IH]; [done|]. csimpl. rewrite IH. done.
Qed.

Lemma omap_ext_in {A B} (f g : A → option B) (l : list A) :
  (∀ a, a ∈ l → f a = g a) → omap f l = omap g l.
Proof.
  induction l as [|a l IH]; intros H; [done|]. csimpl.
  rewrite (H a) by left. rewrite IH; [done|].
  intros b Hb. apply H. by right.
Qed.

Lemma first_occurrences_from_cons seen x l :
  first_occurrences_from seen (x :: l) =
    if decide (x ≠ EmptyString ∧ x ∉ seen)
    then x :: first_occurrences_from ({[x]} ∪ seen) l
    else first_occurrences_from seen l.
Proof.
  unfold first_occurrences_from. simpl length. simpl seq.
  rewrite <- fmap_S_seq. csimpl. rewrite omap_fmap_compose.
  assert (Htail : ∀ seen',
    (∀ y, y ≠ EmptyString → (y ∉ seen' ↔ (y ∉ seen) ∧ y ≠ x)) →
    omap ((λ i, y ← (x :: l) !! i;
               if decide (y ≠ EmptyString ∧ (y ∉ seen) ∧ y ∉ take i (x :: l))
               then Some y else None) ∘ S) (seq 0 (length l))
    = omap (λ i, y ← l !! i;
               if decide (y ≠ EmptyString ∧ (y ∉ seen') ∧ y ∉ take i l)
               then Some y else None) (seq 0 (length l))).
  { intros seen' Hs. apply omap_ext_in. intros i _. simpl.
    destruct (l !! i) as [y|]; simpl; [|done].
    assert (Hiff : (y ≠ EmptyString ∧ (y ∉ seen) ∧ y ∉ x :: take i l)
                   ↔ (y ≠ EmptyString ∧ (y ∉ seen') ∧ y ∉ take i l)).
    { rewrite not_elem_of_cons. specialize (Hs y). tauto. }
    repeat case_decide; tauto. }
  destruct (decide (x ≠ EmptyString ∧ x ∉ seen)) as [Hk|Hk].
  - rewrite decide_True by (pose proof (not_elem_of_nil x); tauto).
    f_equal. apply Htail. intros y _. set_solver.
  - rewrite decide_False by tauto.
    apply Htail. intros y Hy. split; [|tauto]. intros Hn. split; [done|].
    intros ->. tauto.
Qed.

Lemma first_occurrences_from_nil seen : first_occurrences_from seen [] = [].
Proof. done. Qed.

Lemma first_occurrences_from_empty l :
  first_occurrences_from ∅ l = first_occurrences l.
Proof.
  unfold first_occurrences_from, first_occurrences.
  apply omap_ext_in. intros i _. destruct (l !! i) as [y|]; simpl; [|done].
  repeat case_decide; try done; exfalso.
  - tauto.
  - apply H. split; [tauto|]. split; [set_solver|tauto].
Qed.

Lemma elem_of_first_occurrences_from seen l x :
  x ∈ first_occurrences_from seen l ↔ x ≠ EmptyString ∧ (x ∉ seen) ∧ x ∈ l.
Proof.
  revert seen. induction l as [|y l IH]; intros seen.
  - rewrite first_occurrences_from_nil. set_solver.
  - rewrite first_occurrences_from_cons. case_decide as Hy.
    + rewrite elem_of_cons, IH, elem_of_cons.
      destruct (decide (x = y)) as [->|Hne]; [tauto|]. set_solver.
    + rewrite IH, elem_of_cons.
      destruct (decide (x = y)) as [->|Hne]; [|tauto].
      split; [tauto|]. intros (? & ? & _). tauto.
Qed.

Lemma NoDup_first_occurrences_from seen l :
  NoDup (first_occurrences_from seen l).
Proof.
  revert seen. induction l as [|y l IH]; intros seen.
  - constructor.
  - rewrite first_occurrences_from_cons. case_decide; [|apply IH].
    apply NoDup_cons. split; [|apply IH].
    rewrite elem_of_first_occurrences_from. set_solver.
Qed.

(** The loop over one page appends the first occurrences of the page's
    normalised tags that were not seen before, and keeps [seen] equal to
    the set of collected versions. *)
Lemma collect_page_first_occurrences data vs seen :
  let new := first_occurrences_from seen (normalize_tag ∘ tag_name <$> data) in
  collect_page data (vs, seen) = (vs ++ new, list_to_set new ∪ seen).
Proof.
  revert vs seen. induction data as [|rel data IH]; intros vs seen; simpl.
  - rewrite app_nil_r. f_equal. set_solver.
  - rewrite first_occurrences_from_cons. unfold collect_page in *. simpl.
    set (tag := normalize_tag (tag_name rel)).
    destruct (Str.is_empty tag) eqn:Ee; simpl.
    { apply StrFacts.is_empty_true in Ee. rewrite decide_False by tauto.
      apply IH. }
    assert (tag ≠ EmptyString) by (intros E; by rewrite E in Ee).
    case_bool_decide as Hin; simpl.
    { rewrite decide_False by tauto. apply IH. }
    rewrite decide_True by tauto. rewrite IH.
    rewrite <- app_assoc. simpl. f_equal. set_solver.
Qed.

End Dedup.

(** ** Running the programs *)

Section Runs.
Context `{P : Platform}.

Lemma add_events_nil s : add_events s [] = s.
Proof. destruct s. unfold add_events. simpl. by rewrite app_nil_r. Qed.

(** The probe, run on a state: nothing happens when the request is
    refused; otherwise the opener is asked once and any answer becomes a
    status. *)
Lemma probe_url_status_run url timeout s :
  probe_url_status url timeout s =
    match request_refused url with
    | Some e => (Raise e, s)
    | None =>
        let '(answer, w) := opener_open (probe_request url) timeout (world s) in
        (Return (answer_status answer),
         MkState w (trace s ++ [EvOpen (probe_request url) timeout answer]))
    end.
Proof.
  unfold probe_url_status, new_request, bind.
  destruct (request_refused url) as [e|]; [done|].
  unfold ret at 1. unfold try_except, bind, open. simpl.
  fold (probe_request url).
  destruct (opener_open (probe_request url) timeout (world s)) as [[e|resp] w];
    simpl; [|done].
  by destruct e.
Qed.

(** One turn of the page loop, run on a state. *)
Lemma fetch_page_run timeout token verbose st s :
  fetch_page timeout token verbose st s =
    let pre := trace s
                 ++ [EvUpdate (ProgressFetch (fs_page st) (length (fs_versions st)))]
                 ++ (if verbose then [EvEprint (MsgDebugGet (fs_url st))] else []) in
    match request_refused (fs_url st) with
    | Some e => (Raise e, MkState (world s) pre)
    | None =>
        let req := github_request (fs_url st) token in
        let '(answer, w) := opener_open req timeout (world s) in
        let tr := pre ++ [EvOpen req timeout answer] in
        match answer with
        | inr resp =>
            match resp_releases resp with
            | Some data =>
                (Return (after_page st resp data), MkState w (tr ++ [EvSleep (1 # 20)]))
            | None =>
                (Raise OtherException,
                 MkState w (tr ++ fetch_error_events OtherException))
            end
        | inl e => (Raise e, MkState w (tr ++ fetch_error_events e))
        end
    end.
Proof.
  destruct s as [w0 tr0], st as [u p vs seen].
  cbv beta iota zeta delta
    [fetch_page new_request bind ui_update eprint when emit ret raise
     try_except open sleep ui_done world trace after_page github_request
     fetch_error_events fs_url fs_page fs_versions fs_seen].
  destruct verbose; destruct (request_refused u) as [e|].
  all: rewrite <- ?app_assoc; cbn [app]; try done.
  all: destruct (opener_open _ timeout w0) as [[e|resp] w].
  all: try (destruct (resp_releases resp) as [data|];
            [destruct (collect_page data (vs, seen)) as [vs' seen']|]).
  all: try (destruct e; [destruct (truthy body)|..]).
  all: cbv beta iota zeta delta [world trace]; cbn [fst snd].
  all: rewrite <- ?app_assoc; cbn [app]; done.
Qed.

Lemma fetch_loop_unfold fuel timeout token verbose st s :
  fetch_loop fuel timeout token verbose st s =
    if Str.is_empty (fs_url st) then (Return st, s)
    else match fuel with
         | O => (OutOfFuel, s)
         | S fuel' =>
             match fetch_page timeout token verbose st s with
             | (Return st', s') => fetch_loop fuel' timeout token verbose st' s'
             | (Raise e, s') => (Raise e, s')
             | (OutOfFuel, s') => (OutOfFuel, s')
             end
         end.
Proof. destruct fuel; simpl; destruct (Str.is_empty _); reflexivity. Qed.

Lemma fetch_page_Return timeout token verbose st s st' s' :
  fetch_page timeout token verbose st s = (Return st', s') →
  ∃ resp data w,
    request_refused (fs_url st) = None
    ∧ opener_open (github_request (fs_url st) token) timeout (world s)
      = (inr resp, w)
    ∧ resp_releases resp = Some data
    ∧ st' = after_page st resp data
    ∧ s' = MkState w (trace s ++ page_events timeout token verbose st resp).
Proof.
  rewrite fetch_page_run. cbv zeta.
  destruct (request_refused (fs_url st)) as [e|]; [done|].
  destruct (opener_open _ timeout (world s)) as [[e|resp] w] eqn:Eo; [done|].
  destruct (resp_releases resp) as [data|] eqn:Ed; [|done].
  intros [= <- <-]. exists resp, data, w. split_and!; try done.
  unfold page_events. by rewrite <- !app_assoc.
Qed.

Lemma fetch_page_ok timeout token verbose st s resp data w :
  request_refused (fs_url st) = None →
  opener_open (github_request (fs_url st) token) timeout (world s)
    = (inr resp, w) →
  resp_releases resp = Some data →
  fetch_page timeout token verbose st s
  = (Return (after_page st resp data),
     MkState w (trace s ++ page_events timeout token verbose st resp)).
Proof.
  intros Hr Ho Hd. rewrite fetch_page_run. cbv zeta. rewrite Hr, Ho, Hd.
  unfold page_events. by rewrite <- !app_assoc.
Qed.

Lemma fetched_pages_page_events timeout token verbose st resp data :
  resp_releases resp = Some data →
  fetched_pages (page_events timeout token verbose st resp) = [data].
Proof.
  intros H. unfold page_events, fetched_pages.
  destruct verbose; csimpl; by rewrite H.
Qed.

Lemma enum_view_page_events timeout token verbose st resp data :
  resp_releases resp = Some data →
  enum_view (page_events timeout token verbose st resp)
  = [inl (fs_page st, length (fs_versions st)); inr data].
Proof.
  intros H. unfold page_events, enum_view.
  destruct verbose; csimpl; by rewrite H.
Qed.

Lemma after_page_acc st resp data :
  (fs_versions (after_page st resp data), fs_seen (after_page st resp data))
  = collect_page data (fs_versions st, fs_seen st).
Proof.
  unfold after_page. cbn [fs_versions fs_seen].
  by destruct (collect_page data (fs_versions st, fs_seen st)).
Qed.

Lemma fetched_pages_app evs1 evs2 :
  fetched_pages (evs1 ++ evs2) = fetched_pages evs1 ++ fetched_pages evs2.
Proof. apply omap_app. Qed.

Lemma enum_view_app evs1 evs2 :
  enum_view (evs1 ++ evs2) = enum_view evs1 ++ enum_view evs2.
Proof. apply omap_app. Qed.

(** What a run of the page loop that returns has done: it stopped on an
    empty next URL, it collected the pages it was served, and it reported
    before each fetch. *)
Lemma fetch_loop_Return fuel timeout token verbose st s st' s' :
  fetch_loop fuel timeout token verbose st s = (Return st', s') →
  ∃ evs,
    trace s' = trace s ++ evs
    ∧ Str.is_empty (fs_url st') = true
    ∧ (fs_versions st', fs_seen st')
      = collect_page (concat (fetched_pages evs)) (fs_versions st, fs_seen st)
    ∧ enum_view evs
      = report_before_fetch (fs_page st) (fs_versions st, fs_seen st)
          (fetched_pages evs).
Proof.
  revert st s. induction fuel as [|fuel IH]; intros st s;
    rewrite fetch_loop_unfold;
    destruct (Str.is_empty (fs_url st)) eqn:Eu; try done.
  1,2: intros [= <- <-]; exists []; by rewrite app_nil_r.
  destruct (fetch_page timeout token verbose st s) as [[st1| |] s1] eqn:Ep;
    try done.
  apply fetch_page_Return in Ep as (resp & data & w & _ & _ & Hd & -> & ->).
  intros (evs & Ht & He & Hc & Hv)%IH. simpl in Ht.
  exists (page_events timeout token verbose st resp ++ evs).
  split_and!.
  - by rewrite Ht, <- app_assoc.
  - done.
  - rewrite Hc, fetched_pages_app, (fetched_pages_page_events _ _ _ _ _ data) by done.
    rewrite after_page_acc. cbn [app concat].
    unfold collect_page. by rewrite foldl_app.
  - rewrite enum_view_app, fetched_pages_app,
      (fetched_pages_page_events _ _ _ _ _ data),
      (enum_view_page_events _ _ _ _ _ data) by done.
    rewrite Hv, after_page_acc. done.
Qed.

Lemma github_fetch_release_tags_run fuel repo timeout token verbose s :
  github_fetch_release_tags fuel repo timeout token verbose s =
    match fetch_loop fuel timeout token verbose
            (MkFetch (first_page_url repo) 1 [] ∅)
            (add_events s (prelude_events repo token)) with
    | (Return st, s') =>
        (Return (fs_versions st),
         add_events s' (postlude_events (length (fs_versions st))))
    | (Raise e, s') => (Raise e, s')
    | (OutOfFuel, s') => (OutOfFuel, s')
    end.
Proof.
  destruct s as [w0 tr0].
  cbv beta iota zeta delta
    [github_fetch_release_tags bind eprint when emit ret ui_done
     add_events prelude_events postlude_events world trace].
  destruct (truthy token); cbn [negb]; rewrite <- ?app_assoc; cbn [app].
  all: destruct (fetch_loop _ _ _ _ _ _) as [[st| |] [w1 tr1]]; try done.
  all: by rewrite <- ?app_assoc.
Qed.

Lemma github_fetch_release_tags_Return fuel repo timeout token verbose s vs s' :
  github_fetch_release_tags fuel repo timeout token verbose s = (Return vs, s') →
  ∃ evs,
    trace s' = trace s ++ evs
    ∧ vs = (collect_page (concat (fetched_pages evs)) ([], ∅)).1
    ∧ enum_view evs = report_before_fetch 1 ([], ∅) (fetched_pages evs).
Proof.
  rewrite github_fetch_release_tags_run.
  destruct (fetch_loop _ _ _ _ _ _) as [[st| |] s1] eqn:El; try done.
  intros [= <- <-].
  apply fetch_loop_Return in El as (evs & Ht & _ & Hc & Hv). simpl in *.
  exists (prelude_events repo token ++ evs
          ++ postlude_events (length (fs_versions st))).
  assert (Hp : fetched_pages (prelude_events repo token) = []
               ∧ enum_view (prelude_events repo token) = []).
  { unfold prelude_events. by destruct (truthy token). }
  destruct Hp as [Hp1 Hp2].
  split_and!.
  - by rewrite Ht, <- !app_assoc.
  - rewrite !fetched_pages_app, Hp1. simpl. rewrite app_nil_r. by rewrite <- Hc.
  - rewrite !enum_view_app, !fetched_pages_app, Hp1, Hp2. simpl.
    by rewrite !app_nil_r.
Qed.

End Runs.

(** ** The enumerator *)

Section Enumerator.
Context `{P : Platform}.

Lemma first_occurrences_facts (l : list string) :
  NoDup (first_occurrences l)
  ∧ (∀ x, x ∈ first_occurrences l ↔ x ≠ EmptyString ∧ x ∈ l)
  ∧ length (first_occurrences l)
    = size (list_to_set (filter (λ x, x ≠ EmptyString) l) : gset string).
Proof.
  rewrite <- first_occurrences_from_empty.
  assert (Hel : ∀ x, x ∈ first_occurrences_from ∅ l ↔ x ≠ EmptyString ∧ x ∈ l).
  { intros x. rewrite elem_of_first_occurrences_from. set_solver. }
  split_and!; [apply NoDup_first_occurrences_from|done|].
  rewrite <- (size_list_to_set (C:=gset string))
    by apply NoDup_first_occurrences_from.
  f_equal. apply set_eq. intros x.
  rewrite !elem_of_list_to_set, Hel, list_elem_of_filter. done.
Qed.

(** C2. When the enumerator returns, its result is the list of first
    occurrences of the non-empty normalised tags of the pages it was
    served, in page order: no value twice, every non-empty normalised value
    present, as many entries as there are distinct such values. *)
Theorem enumerator_first_occurrences fuel repo timeout token verbose s versions s' :
  github_fetch_release_tags fuel repo timeout token verbose s
    = (Return versions, s') →
  ∃ evs,
    trace s' = trace s ++ evs
    ∧ let normalized := normalize_tag <$> fetched_tags evs in
      versions = first_occurrences normalized
      ∧ NoDup versions
      ∧ (∀ x, x ∈ versions ↔ x ≠ EmptyString ∧ x ∈ normalized)
      ∧ length versions
        = size (list_to_set (filter (λ x, x ≠ EmptyString) normalized)
                : gset string).
Proof.
  intros (evs & Ht & Hv & _)%github_fetch_release_tags_Return.
  exists evs. split; [done|]. cbv zeta.
  assert (Heq : versions = first_occurrences (normalize_tag <$> fetched_tags evs)).
  { rewrite Hv, collect_page_first_occurrences. simpl.
    rewrite first_occurrences_from_empty. unfold fetched_tags.
    by rewrite <- list_fmap_compose. }
  clear Hv. subst versions.
  split; [done|]. apply first_occurrences_facts.
Qed.

Lemma reports_of_report_before_fetch page acc pages k :
  reports_of (report_before_fetch page acc pages) !! k =
    if decide (k < length pages)%nat
    then Some ((page + k)%nat,
               length (collect_page (concat (take k pages)) acc).1)
    else None.
Proof.
  revert page acc k. induction pages as [|data pages IH]; intros page acc k.
  - case_decide as Hk; [simpl in Hk; lia|done].
  - change (reports_of (report_before_fetch page acc (data :: pages)))
      with ((page, length acc.1)
            :: reports_of (report_before_fetch (S page) (collect_page data acc) pages)).
    destruct k as [|k].
    + rewrite decide_True by (simpl; lia). simpl. by rewrite Nat.add_0_r.
    + cbn [lookup list_lookup]. rewrite IH.
      case_decide as Hk.
      * rewrite decide_True by (simpl; lia). cbn [take concat].
        unfold collect_page. rewrite foldl_app.
        do 2 f_equal. lia.
      * by rewrite decide_False by (simpl; lia).
Qed.

Lemma length_reports_of_report_before_fetch page acc pages :
  length (reports_of (report_before_fetch page acc pages)) = length pages.
Proof.
  revert page acc. induction pages as [|data pages IH]; intros page acc;
    simpl; [done|]. by rewrite IH.
Qed.

(** C9 (as amended). In an enumeration that returns, progress is reported
    before each page fetch and not after it: reports and fetches alternate,
    starting with a report, and the report that precedes the fetch of the
    page of index [k + 1] shows that index and the number of candidates
    collected from the [k] pages before it. *)
Theorem progress_report_precedes_fetch fuel repo timeout token verbose s versions s' :
  github_fetch_release_tags fuel repo timeout token verbose s
    = (Return versions, s') →
  ∃ evs,
    trace s' = trace s ++ evs
    ∧ let pages := fetched_pages evs in
      enum_view evs = report_before_fetch 1 ([], ∅) pages
      ∧ length (reports_of (enum_view evs)) = length pages
      ∧ ∀ k, (k < length pages)%nat →
          reports_of (enum_view evs) !! k
          = Some (S k,
                  length (first_occurrences
                            (normalize_tag <$>
                               (tag_name <$> concat (take k pages))))).
Proof.
  intros (evs & Ht & _ & Hv)%github_fetch_release_tags_Return.
  exists evs. split; [done|]. cbv zeta. rewrite Hv.
  split_and!; [done|apply length_reports_of_report_before_fetch|].
  intros k Hk. rewrite reports_of_report_before_fetch, decide_True by done.
  rewrite collect_page_first_occurrences. simpl.
  by rewrite first_occurrences_from_empty, <- list_fmap_compose.
Qed.

Lemma parse_link_header_or_empty link :
  parse_link_header (Some (Str.or_empty link)) = parse_link_header link.
Proof. by destruct link. Qed.

Lemma fetch_page_requests timeout token verbose st s :
  request_refused (fs_url st) = None →
  ∃ answer rest,
    trace (fetch_page timeout token verbose st s).2
    = trace s
      ++ [EvUpdate (ProgressFetch (fs_page st) (length (fs_versions st)))]
      ++ (if verbose then [EvEprint (MsgDebugGet (fs_url st))] else [])
      ++ [EvOpen (github_request (fs_url st) token) timeout answer] ++ rest.
Proof.
  intros Hr. rewrite fetch_page_run. cbv zeta. rewrite Hr.
  destruct (opener_open _ timeout (world s)) as [answer w].
  exists answer.
  destruct answer as [e|resp]; [|destruct (resp_releases resp)];
    eexists; cbn [snd trace]; rewrite <- !app_assoc; reflexivity.
Qed.

Lemma fetch_page_trace_grows timeout token verbose st s :
  ∃ evs, trace (fetch_page timeout token verbose st s).2 = trace s ++ evs.
Proof.
  rewrite fetch_page_run. cbv zeta.
  destruct (request_refused (fs_url st)); [by eexists|].
  destruct (opener_open _ timeout (world s)) as [[e|resp] w];
    [|destruct (resp_releases resp)];
    eexists; cbn [snd trace]; rewrite <- !app_assoc; reflexivity.
Qed.

Lemma fetch_loop_trace_grows fuel timeout token verbose st s :
  ∃ evs, trace (fetch_loop fuel timeout token verbose st s).2 = trace s ++ evs.
Proof.
  revert st s. induction fuel as [|fuel IH]; intros st s;
    rewrite fetch_loop_unfold; destruct (Str.is_empty (fs_url st)).
  1-3: exists []; by rewrite app_nil_r.
  destruct (fetch_page_trace_grows timeout token verbose st s) as [evs1 H1].
  destruct (fetch_page timeout token verbose st s) as [[st1| |] s1];
    simpl in H1; [|by exists evs1..].
  destruct (IH st1 s1) as [evs2 H2]. exists (evs1 ++ evs2).
  by rewrite H2, H1, <- app_assoc.
Qed.

Lemma fetch_loop_requests fuel timeout token verbose st s :
  Str.is_empty (fs_url st) = false →
  request_refused (fs_url st) = None →
  ∃ answer rest,
    trace (fetch_loop (S fuel) timeout token verbose st s).2
    = trace s
      ++ [EvUpdate (ProgressFetch (fs_page st) (length (fs_versions st)))]
      ++ (if verbose then [EvEprint (MsgDebugGet (fs_url st))] else [])
      ++ [EvOpen (github_request (fs_url st) token) timeout answer] ++ rest.
Proof.
  intros Hu Hr. rewrite fetch_loop_unfold, Hu.
  destruct (fetch_page_requests timeout token verbose st s Hr)
    as (answer & rest & H1).
  exists answer.
  destruct (fetch_page timeout token verbose st s) as [[st1| |] s1];
    simpl in H1; [|by exists rest..].
  destruct (fetch_loop_trace_grows fuel timeout token verbose st1 s1) as [evs H2].
  exists (rest ++ evs). rewrite H2, H1.
  destruct verbose; cbn [app]; rewrite <- !app_assoc; cbn [app]; done.
Qed.

(** C6. A page whose [Link] header names no next page ends the
    enumeration, whatever the page lists: the loop returns after that
    fetch, for any fuel that allows the fetch, with nothing requested
    afterwards. A page that lists nothing and names a next page [u] does
    not end it: the loop goes on from [u] with the versions unchanged,
    and its next request is for [u]. *)
Theorem pagination_ends_without_next timeout token verbose st s resp w :
  Str.is_empty (fs_url st) = false →
  request_refused (fs_url st) = None →
  opener_open (github_request (fs_url st) token) timeout (world s)
    = (inr resp, w) →
  let s1 := MkState w (trace s ++ page_events timeout token verbose st resp) in
  (∀ data fuel,
     resp_releases resp = Some data →
     parse_link_header (resp_link resp) !! "next" = None →
     fetch_loop (S fuel) timeout token verbose st s
       = (Return (after_page st resp data), s1)
     ∧ fs_url (after_page st resp data) = EmptyString
     ∧ fetched_pages (page_events timeout token verbose st resp) = [data])
  ∧ (∀ u fuel,
       resp_releases resp = Some [] →
       parse_link_header (resp_link resp) !! "next" = Some u →
       let st1 := MkFetch u (S (fs_page st)) (fs_versions st) (fs_seen st) in
       Str.is_empty u = false
       ∧ fetch_loop (S fuel) timeout token verbose st s
         = fetch_loop fuel timeout token verbose st1 s1
       ∧ (request_refused u = None →
          ∃ answer rest,
            trace (fetch_loop (S (S fuel)) timeout token verbose st s).2
            = trace s1
              ++ [EvUpdate (ProgressFetch (S (fs_page st))
                                          (length (fs_versions st)))]
              ++ (if verbose then [EvEprint (MsgDebugGet u)] else [])
              ++ [EvOpen (github_request u token) timeout answer] ++ rest)).
Proof.
  intros Hu Hr Ho s1. split.
  - intros data fuel Hd Hn.
    assert (He : fs_url (after_page st resp data) = EmptyString).
    { unfold after_page. cbn [fs_url]. rewrite parse_link_header_or_empty.
      unfold get_next. by rewrite Hn. }
    split_and!; [|done|by apply fetched_pages_page_events].
    rewrite fetch_loop_unfold, Hu.
    rewrite (fetch_page_ok _ _ _ _ _ resp data w) by done.
    rewrite fetch_loop_unfold, He. done.
  - intros u fuel Hd Hn st1.
    apply get_next_some in Hn as Hn'. destruct Hn' as [Hg Hne].
    assert (Hst : after_page st resp [] = st1).
    { unfold after_page, st1, collect_page. cbn [foldl fst snd].
      by rewrite parse_link_header_or_empty, Hg. }
    assert (Hstep : ∀ fuel', fetch_loop (S fuel') timeout token verbose st s
                             = fetch_loop fuel' timeout token verbose st1 s1).
    { intros fuel'. rewrite fetch_loop_unfold, Hu.
      rewrite (fetch_page_ok _ _ _ _ _ resp [] w) by done. by rewrite Hst. }
    split_and!; [done|apply Hstep|].
    intros Hr'. rewrite Hstep.
    apply (fetch_loop_requests fuel timeout token verbose st1 s1); done.
Qed.

End Enumerator.

(** The two sample pages list 2024.2.1 twice and 2023.10.7 twice, once
    padded, and one record has no tag: three versions come out. *)
Lemma enumerator_first_occurrences_witness :
  ∃ evs,
    trace (github_fetch_release_tags (P:=Sample.platform) 5
             "goauthentik/authentik" 20 None false Sample.start).2
      = trace Sample.start ++ evs
    ∧ let normalized := normalize_tag <$> fetched_tags evs in
      ["2024.2.1"; "2023.10.7"; "2023.10.6"] = first_occurrences normalized
      ∧ NoDup ["2024.2.1"; "2023.10.7"; "2023.10.6"]
      ∧ (∀ x, x ∈ ["2024.2.1"; "2023.10.7"; "2023.10.6"]
              ↔ x ≠ EmptyString ∧ x ∈ normalized)
      ∧ length ["2024.2.1"; "2023.10.7"; "2023.10.6"]
        = size (list_to_set (filter (λ x, x ≠ EmptyString) normalized)
                : gset string).
Proof.
  apply (enumerator_first_occurrences (P:=Sample.platform) 5
           "goauthentik/authentik" 20 None false Sample.start).
  reflexivity.
Defined.

(** The same enumeration reports page 1 with 0 collected and page 2 with
    2 collected. *)
Lemma progress_report_precedes_fetch_witness :
  ∃ evs,
    trace (github_fetch_release_tags (P:=Sample.platform) 5
             "goauthentik/authentik" 20 None false Sample.start).2
      = trace Sample.start ++ evs
    ∧ let pages := fetched_pages evs in
      enum_view evs = report_before_fetch 1 ([], ∅) pages
      ∧ length (reports_of (enum_view evs)) = length pages
      ∧ ∀ k, (k < length pages)%nat →
          reports_of (enum_view evs) !! k
          = Some (S k,
                  length (first_occurrences
                            (normalize_tag <$>
                               (tag_name <$> concat (take k pages))))).
Proof.
  apply (progress_report_precedes_fetch (P:=Sample.platform) 5
           "goauthentik/authentik" 20 None false Sample.start
           ["2024.2.1"; "2023.10.7"; "2023.10.6"]).
  reflexivity.
Defined.

(** C9 (as stated) fails. An index of one page that lists one release is
    enumerated with a single progress report, page 1 with 0 collected,
    made before the page is fetched; nothing is reported after the fetch,
    and no report shows the candidate that the page contributed. *)
Lemma progress_report_not_after_fetch :
  (github_fetch_release_tags (P:=Sample.single_platform) 5
     "goauthentik/authentik" 20 None false (@MkState Sample.single_platform 0%nat [])).1
    = Return ["2024.2.1"]
  ∧ enum_view
      (trace (github_fetch_release_tags (P:=Sample.single_platform) 5
                "goauthentik/authentik" 20 None false
                (@MkState Sample.single_platform 0%nat [])).2)
    = [inl (1%nat, 0%nat); inr [Release (Some "version/2024.2.1")]]
  ∧ report_follows_each_fetch
      (trace (github_fetch_release_tags (P:=Sample.single_platform) 5
                "goauthentik/authentik" 20 None false
                (@MkState Sample.single_platform 0%nat [])).2)
    = false.
Proof. split_and!; reflexivity. Qed.

(** A single page without next relation ends the loop with fuel 1; an
    empty first page that names a next page hands over to that page. *)
Lemma pagination_ends_without_next_witness :
  fetch_loop (P:=Sample.single_platform) 1 20 None false
    (MkFetch Sample.page1_url 1 [] ∅) (@MkState Sample.single_platform 0%nat [])
  = (Return (after_page (MkFetch Sample.page1_url 1 [] ∅) Sample.single_page
               [Release (Some "version/2024.2.1")]),
     @MkState Sample.single_platform 1%nat
       ([] ++ page_events 20 None false (MkFetch Sample.page1_url 1 [] ∅)
                Sample.single_page))
  ∧ fetch_loop (P:=Sample.gap_platform) 2 20 None false
      (MkFetch Sample.page1_url 1 [] ∅) (@MkState Sample.gap_platform 0%nat [])
    = fetch_loop (P:=Sample.gap_platform) 1 20 None false
        (MkFetch Sample.page2_url 2 [] ∅)
        (@MkState Sample.gap_platform 1%nat
           ([] ++ page_events 20 None false (MkFetch Sample.page1_url 1 [] ∅)
                    Sample.gap_page)).
Proof.
  split.
  - refine (proj1 (proj1 (pagination_ends_without_next (P:=Sample.single_platform)
                            20 None false (MkFetch Sample.page1_url 1 [] ∅)
                            (@MkState Sample.single_platform 0%nat [])
                            Sample.single_page 1%nat _ _ _)
                     [Release (Some "version/2024.2.1")] 0%nat _ _));
      reflexivity.
  - refine (proj1 (proj2 (proj2 (pagination_ends_without_next (P:=Sample.gap_platform)
                            20 None false (MkFetch Sample.page1_url 1 [] ∅)
                            (@MkState Sample.gap_platform 0%nat [])
                            Sample.gap_page 1%nat _ _ _)
                     Sample.page2_url 1%nat _ _)));
      reflexivity.
Defined.

(** ** The probe and the probing loop *)

Section Probing.
Context `{P : Platform}.

(** One turn of the probing loop, run on a state. *)
Lemma probe_loop_cons args ui base total i ver rest found checked s :
  probe_loop args ui base total i (ver :: rest) found checked s =
    let url := probe_url base ver in
    match request_refused url with
    | Some e => (Raise e, s)
    | None =>
        let '(answer, w) :=
          opener_open (probe_request url) (arg_timeout args) (world s) in
        let status := answer_status answer in
        let s1 := MkState w (trace s
                             ++ [EvOpen (probe_request url) (arg_timeout args) answer]
                             ++ shown_events args ui i total ver status) in
        if is_hit status then
          if arg_all args then
            probe_loop args ui base total (S i) rest
              (found ++ [(ver, url, status)]) (S checked)
              (add_events s1 (pause_events args))
          else (Return (found ++ [(ver, url, status)], S checked), s1)
        else
          probe_loop args ui base total (S i) rest found (S checked)
            (add_events s1 (pause_events args))
    end.
Proof.
  cbv zeta. cbn [probe_loop]. unfold bind at 1.
  rewrite probe_url_status_run.
  destruct (request_refused (probe_url base ver)) as [e|]; [done|].
  destruct (opener_open _ (arg_timeout args) (world s)) as [answer w].
  destruct s as [w0 tr0].
  cbv beta iota zeta delta
    [bind ui_update eprint when emit ret sleep world trace add_events
     shown_events pause_events].
  destruct ui, (arg_verbose args), (is_hit (answer_status answer)),
    (arg_all args), (negb (Qle_bool (arg_sleep args) 0));
    cbn [negb]; rewrite <- ?app_assoc; cbn [app]; rewrite ?app_nil_r;
    reflexivity.
Qed.




Lemma hits_of_cons ver rest p pr :
  hits_of (ver :: rest) (p :: pr)
  = (if is_hit p.2 then [(ver, p.1, p.2)] else []) ++ hits_of rest pr.
Proof.
  unfold hits_of. cbn [zip_with]. rewrite filter_cons. cbn [snd].
  destruct (is_hit p.2); [by rewrite decide_True|by rewrite decide_False].
Qed.

Lemma hits_of_nil_r versions : hits_of versions [] = [].
Proof. by destruct versions. Qed.

Lemma hits_of_no_hit versions pr :
  Forall (λ p, is_hit p.2 = false) pr → hits_of versions pr = [].
Proof.
  revert versions. induction pr as [|p pr IH]; intros versions Hf.
  - apply hits_of_nil_r.
  - destruct versions as [|ver rest]; [done|].
    apply Forall_cons in Hf as [Hp Hf]. rewrite hits_of_cons, Hp. by apply IH.
Qed.






End Probing.



(** ** The pause between probes *)

Section Pausing.
Context `{P : Platform}.

Lemma pause_events_positive args :
  Qle_bool (arg_sleep args) 0 = false →
  pause_events args = [EvSleep (arg_sleep args)].
Proof. intros H. unfold pause_events. by rewrite H. Qed.

Lemma no_pause_shown args ui i total ver status :
  no_pause (shown_events args ui i total ver status) = true.
Proof. unfold shown_events. by destruct ui, (arg_verbose args). Qed.

(** A turn that ends with its pause satisfies the pause discipline. *)
Lemma paused_turn args ui i total ver status req answer rest :
  Qle_bool (arg_sleep args) 0 = false →
  paused_after_each_probe (arg_sleep args)
    ([EvOpen req (arg_timeout args) answer]
     ++ shown_events args ui i total ver status
     ++ pause_events args ++ rest)
  = paused_after_each_probe (arg_sleep args) rest.
Proof.
  intros H. rewrite pause_events_positive by done. unfold shown_events.
  destruct ui, (arg_verbose args); cbn; by rewrite bool_decide_eq_true_2.
Qed.

(** C8 (as amended). With a positive delay, every probe is followed by a
    pause of that length, except the probe whose success ends a search
    made without the all flag: the loop is left right after that probe
    has been shown, with no pause. *)
Theorem pause_after_each_probe_but_last_hit
    args ui base total i versions found checked s found' checked' s' :
  Qle_bool (arg_sleep args) 0 = false →
  probe_loop args ui base total i versions found checked s
    = (Return (found', checked'), s') →
  ∃ evs,
    trace s' = trace s ++ evs
    ∧ (arg_all args = true ∨ found' = found →
       paused_after_each_probe (arg_sleep args) evs = true)
    ∧ (arg_all args = false → found' ≠ found →
       ∃ evs0 req answer shown,
         evs = evs0 ++ EvOpen req (arg_timeout args) answer :: shown
         ∧ paused_after_each_probe (arg_sleep args) evs0 = true
         ∧ is_hit (answer_status answer) = true
         ∧ no_pause shown = true).
Proof.
  intros Hpos. revert i found checked s.
  induction versions as [|ver rest IH]; intros i found checked s.
  { cbn. intros [= <- <- <-]. exists []. rewrite app_nil_r.
    split_and!; [done|done|]. intros _ Hne. done. }
  rewrite probe_loop_cons. cbv zeta.
  destruct (request_refused (probe_url base ver)); [done|].
  destruct (opener_open _ (arg_timeout args) (world s)) as [answer w].
  set (url := probe_url base ver).
  set (status := answer_status answer).
  set (req := probe_request url).
  assert (Hgo : ∀ found1,
    (arg_all args = false → found1 = found) →
    probe_loop args ui base total (S i) rest found1 (S checked)
      (add_events
         (MkState w (trace s ++ [EvOpen req (arg_timeout args) answer]
                             ++ shown_events args ui i total ver status))
         (pause_events args))
    = (Return (found', checked'), s') →
    ∃ evs,
      trace s' = trace s ++ evs
      ∧ (arg_all args = true ∨ found' = found →
         paused_after_each_probe (arg_sleep args) evs = true)
      ∧ (arg_all args = false → found' ≠ found →
         ∃ evs0 req0 answer0 shown,
           evs = evs0 ++ EvOpen req0 (arg_timeout args) answer0 :: shown
           ∧ paused_after_each_probe (arg_sleep args) evs0 = true
           ∧ is_hit (answer_status answer0) = true
           ∧ no_pause shown = true)).
  { intros found1 Hf (evs & Htr & Hp & Hl)%IH.
    exists ([EvOpen req (arg_timeout args) answer]
            ++ shown_events args ui i total ver status
            ++ pause_events args ++ evs).
    split_and!.
    - rewrite Htr. cbn [add_events trace]. by rewrite <- !app_assoc.
    - intros Hc. rewrite paused_turn by done. apply Hp.
      destruct Hc as [Ha|Hc]; [by left|].
      destruct (arg_all args) eqn:Ea; [by left|right].
      by rewrite Hf.
    - intros Ha Hne. rewrite <- (Hf Ha) in Hne.
      destruct (Hl Ha Hne) as (evs0 & req0 & answer0 & shown & -> & Hp0 & Hh & Hn).
      exists ([EvOpen req (arg_timeout args) answer]
              ++ shown_events args ui i total ver status
              ++ pause_events args ++ evs0), req0, answer0, shown.
      split_and!; [by rewrite <- !app_assoc|by rewrite paused_turn|done|done]. }
  destruct (is_hit status) eqn:Eh.
  - destruct (arg_all args) eqn:Ea.
    + apply Hgo. done.
    + intros [= <- <- <-].
      exists ([EvOpen req (arg_timeout args) answer]
              ++ shown_events args ui i total ver status).
      split_and!; [done| |].
      * intros [?|Hc]; [done|]. exfalso.
        apply (f_equal length) in Hc. rewrite length_app in Hc. cbn in Hc. lia.
      * intros _ _. exists [], req, answer, (shown_events args ui i total ver status).
        split_and!; [done|done|done|apply no_pause_shown].
  - apply Hgo. done.
Qed.

End Pausing.

(** The run of the sample instance without the all flag. *)
Lemma pause_after_each_probe_but_last_hit_witness :
  ∃ evs,
    trace (probe_loop (P:=Sample.platform)
             (Sample.args "https://sso.example.com" false) false
             "https://sso.example.com" 3 1
             ["2024.2.1"; "2023.10.7"; "2023.10.6"] [] 0 Sample.start).2
      = trace Sample.start ++ evs
    ∧ (arg_all (Sample.args "https://sso.example.com" false) = true
       ∨ [("2023.10.7", probe_url "https://sso.example.com" "2023.10.7", 206)]
         = ([] : list hit) →
       paused_after_each_probe
         (arg_sleep (Sample.args "https://sso.example.com" false)) evs = true)
    ∧ (arg_all (Sample.args "https://sso.example.com" false) = false →
       [("2023.10.7", probe_url "https://sso.example.com" "2023.10.7", 206)]
         ≠ ([] : list hit) →
       ∃ evs0 req answer shown,
         evs = evs0
               ++ EvOpen req (arg_timeout (Sample.args "https://sso.example.com" false))
                    answer :: shown
         ∧ paused_after_each_probe
             (arg_sleep (Sample.args "https://sso.example.com" false)) evs0 = true
         ∧ is_hit (answer_status answer) = true
         ∧ no_pause shown = true).
Proof.
  apply (pause_after_each_probe_but_last_hit (P:=Sample.platform)
           (Sample.args "https://sso.example.com" false) false
           "https://sso.example.com" 3 1
           ["2024.2.1"; "2023.10.7"; "2023.10.6"] [] 0 Sample.start
           [("2023.10.7", probe_url "https://sso.example.com" "2023.10.7", 206)]
           2%nat);
    reflexivity.
Defined.

(** C8 (as stated) fails. Run without the all flag and with a delay of
    half a second on a server that lacks the first candidate and has the
    second, the loop requests the first, pauses, requests the second and
    stops: no pause follows the probe that found the hit. *)
Lemma no_pause_after_short_circuit_hit :
  probe_loop (P:=Sample.platform)
    (Sample.args "https://sso.example.com" false) false
    "https://sso.example.com" 3 1
    ["2024.2.1"; "2023.10.7"; "2023.10.6"] [] 0 Sample.start
  = (Return ([("2023.10.7",
               probe_url "https://sso.example.com" "2023.10.7", 206)], 2%nat),
     @MkState Sample.platform 2%nat
       [EvOpen (probe_request (probe_url "https://sso.example.com" "2024.2.1"))
          20 (inl (HTTPError 404 None));
        EvSleep (1 # 2);
        EvOpen (probe_request (probe_url "https://sso.example.com" "2023.10.7"))
          20 (inr (MkResponse 206 None None))])
  ∧ paused_after_each_probe (1 # 2)
      [EvOpen (probe_request (probe_url "https://sso.example.com" "2024.2.1"))
         20 (inl (HTTPError 404 None));
       EvSleep (1 # 2);
       EvOpen (probe_request (probe_url "https://sso.example.com" "2023.10.7"))
         20 (inr (MkResponse 206 None None))]
    = false.
Proof. split; reflexivity. Qed.

(** ** The probe and the request constructor *)

(** C3. The probe does raise to its caller. The request is built
    before the guarded block is entered, so for a URL without a scheme
    the [ValueError] of the request constructor leaves
    [probe_url_status] instead of becoming status 0, although the
    docstring promises a status code or 0 and the handler catches every
    exception of the guarded block. [main] calls the probe unguarded:
    with a base URL without scheme it raises too, after the
    enumeration. *)
Lemma probe_raises_on_schemeless_url :
  probe_url_status (P:=Sample.platform)
    "sso.example.com/static/dist/admin/AdminInterface-2024.2.1.js" 20
    Sample.start
  = (Raise ValueError, Sample.start)
  ∧ (main (P:=Sample.platform) 5 (Sample.args "sso.example.com" false)
       Sample.start).1
    = Raise ValueError.
Proof. split; reflexivity. Qed.

(** ** Exit codes *)

Section ExitCodes.
Context `{P : Platform}.

Lemma eprint_hit_lines (found : list hit) s :
  foldr (λ h k, eprint (MsgHitLine h) ;;; k) (ret tt) found s
  = (Return tt, add_events s ((λ h, EvEprint (MsgHitLine h)) <$> found)).
Proof.
  revert s. induction found as [|h found IH]; intros s.
  - cbn. by rewrite add_events_nil.
  - cbn [foldr]. unfold bind at 1, eprint at 1, emit at 1. rewrite IH.
    destruct s. unfold add_events. cbn. by rewrite <- app_assoc.
Qed.

(** [main], run on a state, once the base URL is known. *)
Lemma main_run fuel args s base_url s1 :
  resolves args s base_url s1 →
  main fuel args s =
    if Str.is_empty base_url
    then (Return 2, add_events s1 [EvEprint MsgNoBaseUrl])
    else
      match github_fetch_release_tags fuel (arg_repo args) (arg_timeout args)
              env_token (arg_verbose args) s1 with
      | (Raise e, s2) => (Return 1, s2)
      | (OutOfFuel, s2) => (OutOfFuel, s2)
      | (Return [], s2) => (Return 1, add_events s2 [EvEprint MsgNoReleases])
      | (Return versions, s2) =>
          match probe_loop args (ui_enabled_for args) base_url
                  (length versions) 1 versions [] 0
                  (add_events s2 (phase2_events base_url)) with
          | (Return (found, checked), s3) =>
              (Return (match found with [] => 3 | _ :: _ => 0 end),
               add_events s3 (final_events args found checked (length versions)))
          | (Raise e, s3) => (Raise e, s3)
          | (OutOfFuel, s3) => (OutOfFuel, s3)
          end
      end.
Proof.
  intros Hres. unfold main.
  (* the rest of [main], from the test of the base URL on *)
  lazymatch goal with
  | |- bind _ ?k s = ?rhs =>
      lazymatch eval pattern base_url, s1 in rhs with
      | ?R _ _ =>
          assert (Htail : ∀ b st, k b st = R (Str.rstrip_char "/" b) st)
      end
  end.
  { intros b st. cbv beta. generalize (Str.rstrip_char "/" b). clear. intros b.
    destruct (Str.is_empty b); [by destruct st|].
    fold env_token. fold (ui_enabled_for args).
    unfold bind at 1, try_except at 1, bind at 1.
    destruct (github_fetch_release_tags _ _ _ _ _ st) as [[versions| |] s2];
      [|done..].
    unfold ret at 1. destruct versions as [|v versions]; [by destruct s2|].
    set (vs := v :: versions). cbv zeta.
    assert (Hp2 : ∀ (k : M Z),
      (eprint MsgPhase2 ;;; eprint (MsgBase b) ;;; eprint MsgPath ;;;
       eprint MsgBlank ;;; k) s2 = k (add_events s2 (phase2_events b))).
    { intros k. destruct s2. unfold bind, eprint, emit, add_events, phase2_events.
      cbn. by rewrite <- !app_assoc. }
    rewrite Hp2. unfold bind at 1.
    destruct (probe_loop _ _ _ _ _ _ _ _ _) as [[[found checked]| |] s3]; [|done..].
    destruct s3 as [w3 tr3].
    unfold final_events, add_events.
    cbv beta iota zeta delta [bind ui_done eprint emit world trace].
    destruct found as [|h found].
    - unfold ret. cbn [app]. by rewrite <- !app_assoc.
    - unfold when. destruct (arg_all args).
      + unfold bind, eprint, emit. cbn [world trace].
        rewrite eprint_hit_lines. unfold add_events, ret. cbn [world trace].
        rewrite <- !app_assoc. done.
      + unfold ret. cbn [world trace]. rewrite <- !app_assoc. done. }
  unfold bind at 1.
  destruct Hres as [(Hg & -> & ->)|(Hg & line & w & Hl & -> & ->)]; rewrite Hg.
  - unfold ret at 1. by rewrite Htail.
  - unfold bind at 1, input at 1. rewrite Hl. unfold ret at 1.
    by rewrite Htail.
Qed.







End ExitCodes.



(** * Further properties *)

(** ** The status text of the live line *)

Section StatusText.

(** X1. The include-404 option changes nothing: for every status, with or
    without colours, the text appended to the live line is the word
    status followed by the coloured status, whether the option is set or
    not. *)
Theorem status_extra_ignores_include_404 include_404 status use_color :
  status_extra include_404 status use_color
  = "  status " +:+ status_txt status use_color.
Proof.
  unfold status_extra. destruct include_404; [done|]. cbn [orb].
  destruct (Z.eqb_spec status 404) as [->|]; [|done]. cbn [negb].
  by destruct use_color.
Qed.

(** X2. With colours on, a status is shown in green exactly when it
    counts as a hit, that is when it is 200 or 206. *)
Theorem status_green_iff_hit status :
  status_txt status true = green (str_int status) true ↔ is_hit status = true.
Proof.
  unfold status_txt, is_hit.
  destruct ((status =? 200) || (status =? 206)); [done|].
  unfold green, yellow, red, dim, color. generalize (str_int status). intros t.
  destruct ((status =? 301) || (status =? 302) || (status =? 307) || (status =? 308));
    [|destruct (status =? 0)];
    cbn [negb String.append]; split; intros H; discriminate H.
Qed.

End StatusText.

(** ** The progress line *)

Section ProgressLineFacts.

Lemma ui_step_keeps self c :
  enabled (ui_step self c).1 = enabled self
  ∧ min_interval (ui_step self c).1 = min_interval self.
Proof.
  destruct c as [line now|]; cbn [ui_step]; unfold update, done.
  - destruct (negb (enabled self)); [done|].
    by destruct (negb (Qle_bool _ _)).
  - by destruct (negb (enabled self)).
Qed.

Lemma ui_run_cons self c rest :
  ui_run self (c :: rest)
  = ((ui_run (ui_step self c).1 rest).1,
     (ui_step self c).2 ++ (ui_run (ui_step self c).1 rest).2).
Proof.
  cbn [ui_run]. destruct (ui_step self c) as [self1 out1]. cbn [fst snd].
  by destruct (ui_run self1 rest).
Qed.

(** X3. A progress line that is not enabled does nothing: whatever the
    sequence of update and done calls, nothing is written and the object
    is left as it was. *)
Theorem disabled_progress_line_is_silent self calls :
  enabled self = false → ui_run self calls = (self, []).
Proof.
  intros He. induction calls as [|c rest IH]; [done|].
  rewrite ui_run_cons.
  assert (Hs : ui_step self c = (self, [])).
  { destruct c; cbn [ui_step]; unfold update, done; by rewrite He. }
  rewrite Hs. cbn [fst snd]. by rewrite IH.
Qed.

Lemma disabled_progress_line_is_silent_witness :
  ui_run (new_progress_line false)
    [CallUpdate "page 1" 100; CallUpdate "page 2" 200; CallDone]
  = (new_progress_line false, []).
Proof. apply disabled_progress_line_is_silent. reflexivity. Defined.

(** X4. Renders are rate limited: over any sequence of calls, the clock
    reading of each render is at least the minimum interval after the
    reading of the render before it, and the first one at least that long
    after the stored time of the last render. *)
Theorem renders_are_spaced self calls :
  spaced (min_interval self) (last_render_ts self)
         (render_times (ui_run self calls).2).
Proof.
  revert self. induction calls as [|c rest IH]; intros self; [done|].
  rewrite ui_run_cons. cbn [snd]. unfold render_times. rewrite omap_app.
  fold (render_times (ui_run (ui_step self c).1 rest).2).
  specialize (IH (ui_step self c).1).
  destruct (ui_step_keeps self c) as [_ Hm]. rewrite Hm in IH.
  destruct c as [line now|]; cbn [ui_step] in *; unfold update, done in *.
  - destruct (negb (enabled self)); [done|].
    destruct (Qle_bool (min_interval self) (now - last_render_ts self)) eqn:E;
      cbn [negb fst snd] in *; [|done].
    cbn. split; [|done].
    apply Qle_bool_iff in E. lra.
  - destruct (negb (enabled self)); cbn in *; done.
Qed.

Lemma all_space_spaces n : all_space (spaces n) = true.
Proof. induction n; [done|]. cbn. done. Qed.

Lemma length_spaces n : String.length (spaces n) = n.
Proof. induction n as [|n IH]; [done|]. cbn. by rewrite IH. Qed.

Lemma length_append_spaces (l : string) n :
  String.length (l +:+ spaces n) = (String.length l + n)%nat.
Proof.
  induction l as [|c l IH]; [apply length_spaces|].
  change (String c l +:+ spaces n) with (String c (l +:+ spaces n)).
  cbn. by rewrite IH.
Qed.

(** X5. A render leaves no trace of the line before it: over any
    sequence of calls, what a render writes after the carriage return is
    its line followed by spaces only, and is as long as the longer of its
    line and the line rendered before; after a done the count starts from
    zero. *)
Theorem renders_cover_previous_line self calls :
  covering (last_line_len self) (ui_run self calls).2.
Proof.
  revert self. induction calls as [|c rest IH]; intros self; [done|].
  rewrite ui_run_cons. cbn [snd].
  specialize (IH (ui_step self c).1).
  destruct c as [line now|]; cbn [ui_step] in *; unfold update, done in *.
  - destruct (negb (enabled self)); [done|].
    destruct (negb (Qle_bool _ _)); [done|].
    cbn [fst snd app covering last_line_len] in *.
    split_and!; [apply all_space_spaces| |done].
    rewrite length_append_spaces. lia.
  - destruct (negb (enabled self)); [done|].
    cbn [fst snd app covering last_line_len] in *. done.
Qed.

End ProgressLineFacts.

(** ** More on normalisation *)

Section NormalizeMore.
Import Str StrFacts.

Lemma startswith_split p s :
  startswith p s = true → s = p +:+ drop (String.length p) s.
Proof.
  revert s. induction p as [|a p IH]; intros s H; [done|].
  destruct s as [|b s]; [done|]. cbn in H.
  apply andb_true_iff in H as [Hab H]. apply bool_decide_eq_true in Hab as ->.
  change (String b p +:+ ?x) with (String b (p +:+ x)). cbn [String.length drop].
  f_equal. by apply IH.
Qed.

Lemma rstrip_fixed_tail c s : rstrip (String c s) = String c s → rstrip s = s.
Proof.
  cbn. destruct (is_empty (rstrip s) && isspace c); [done|]. by intros [= H].
Qed.

Lemma rstrip_fixed_drop n s : rstrip s = s → rstrip (drop n s) = drop n s.
Proof.
  revert s. induction n as [|n IH]; intros s H; [done|].
  destruct s as [|c s]; [done|]. cbn [drop]. apply IH.
  by apply (rstrip_fixed_tail c).
Qed.

Lemma rstrip_strip s : rstrip (strip s) = strip s.
Proof. unfold strip. apply rstrip_idemp. Qed.

(** X6. Normalisation removes surrounding whitespace and then exactly
    one of the four prefixes version/v, version/, v or nothing: the
    stripped tag is that prefix followed by the result. The result never
    ends in whitespace. *)
Theorem normalize_tag_removes_one_prefix tag :
  ∃ p, p ∈ ["version/v"; "version/"; "v"; EmptyString]
       ∧ strip (or_empty tag) = p +:+ normalize_tag tag
       ∧ rstrip (normalize_tag tag) = normalize_tag tag.
Proof.
  change (normalize_tag tag)
    with (sub_prefix "v" (sub_prefix "version/" (strip (or_empty tag)))).
  generalize (rstrip_strip (or_empty tag)).
  generalize (strip (or_empty tag)). intros s Hs.
  unfold sub_prefix at 2 4 6.
  destruct (startswith "version/" s) eqn:E1.
  - apply startswith_split in E1 as E1'.
    assert (Ht : rstrip (drop (String.length "version/") s)
                 = drop (String.length "version/") s)
      by by apply rstrip_fixed_drop.
    revert E1' Ht. generalize (drop (String.length "version/") s). intros t E1' Ht.
    unfold sub_prefix. destruct (startswith "v" t) eqn:E2.
    + apply startswith_split in E2 as E2'.
      exists "version/v". split_and!.
      * by left.
      * rewrite E1' at 1. rewrite E2' at 1. done.
      * by apply rstrip_fixed_drop.
    + exists "version/". split_and!; [by right; left|done|done].
  - unfold sub_prefix. destruct (startswith "v" s) eqn:E2.
    + apply startswith_split in E2 as E2'.
      exists "v". split_and!; [by do 2 right; left|done|by apply rstrip_fixed_drop].
    + exists EmptyString. split_and!; [by do 3 right; left|done|done].
Qed.

End NormalizeMore.

(** ** More on the [Link] header *)

Section LinkMore.

Lemma span_not_free x s :
  has_char x (Re.span_not x s).1 = false.
Proof.
  induction s as [|c s IH]; [done|]. cbn.
  case_bool_decide as Hc; [done|].
  destruct (Re.span_not x s) as [a b]. cbn in *.
  rewrite bool_decide_eq_false_2 by done. done.
Qed.

Lemma match_link_groups part url rel :
  Re.match_link part = Some (url, rel) →
  Str.is_empty url = false ∧ has_char ">" url = false
  ∧ Str.is_empty rel = false ∧ has_char Re.dquote rel = false.
Proof.
  intros H. pose proof (match_link_nonempty _ _ _ H) as [Hu Hr].
  unfold Re.match_link, Re.many1_not in H.
  destruct (Re.lit "<" part) as [r1|]; simpl in H; [|done].
  pose proof (span_not_free ">" r1) as F1.
  destruct (Re.span_not ">" r1) as [u r2].
  destruct (Str.is_empty u); simpl in H; [done|].
  destruct (Re.lit ">" r2) as [r3|]; simpl in H; [|done].
  destruct (Re.lit ";" r3) as [r4|]; simpl in H; [|done].
  destruct (Re.word "rel=" (Re.spaces r4)) as [r5|]; simpl in H; [|done].
  destruct (Re.lit Re.dquote r5) as [r6|]; simpl in H; [|done].
  pose proof (span_not_free Re.dquote r6) as F2.
  destruct (Re.span_not Re.dquote r6) as [l r7].
  destruct (Str.is_empty l); simpl in H; [done|].
  destruct (Re.lit Re.dquote r7) as [r8|]; simpl in H; [|done].
  destruct (Re.at_end r8); [|done].
  simplify_eq. done.
Qed.

(** X7. Whatever the header, every relation the parser returns has a
    non-empty name without double quote and a non-empty URL without
    closing angle bracket; in particular a next URL, when there is one,
    is never the empty string that ends the page loop. *)
Theorem parsed_relations_well_formed link rel url :
  parse_link_header link !! rel = Some url →
  Str.is_empty url = false ∧ has_char ">" url = false
  ∧ Str.is_empty rel = false ∧ has_char Re.dquote rel = false.
Proof.
  unfold parse_link_header.
  generalize (Str.split "," (Str.or_empty link)). intros parts.
  assert (H0 : ∀ r u, (∅ : gmap string string) !! r = Some u →
    Str.is_empty u = false ∧ has_char ">" u = false
    ∧ Str.is_empty r = false ∧ has_char Re.dquote r = false) by done.
  revert H0 rel url. generalize (∅ : gmap string string).
  induction parts as [|part parts IH]; intros out Hout rel url; simpl.
  - apply Hout.
  - apply IH. intros r u.
    destruct (Re.match_link (Str.strip part)) as [[u0 r0]|] eqn:E; [|apply Hout].
    destruct (decide (r0 = r)) as [->|Hne].
    + rewrite lookup_insert_eq. intros [= ->]. by apply match_link_groups in E.
    + rewrite lookup_insert_ne by done. apply Hout.
Qed.

Lemma parsed_relations_well_formed_witness :
  Str.is_empty Sample.page2_url = false
  ∧ has_char ">" Sample.page2_url = false
  ∧ Str.is_empty "next" = false ∧ has_char Re.dquote "next" = false.
Proof.
  apply (parsed_relations_well_formed (Some (Sample.link_next Sample.page2_url))).
  reflexivity.
Defined.

Lemma append_assoc (a b c : string) : (a +:+ b) +:+ c = a +:+ b +:+ c.
Proof.
  induction a as [|x a IH]; [done|].
  change (String x (a +:+ b) +:+ c = String x (a +:+ b +:+ c)).
  change (String x ((a +:+ b) +:+ c) = String x (a +:+ b +:+ c)).
  by rewrite IH.
Qed.

Lemma has_char_append x (a b : string) :
  has_char x (a +:+ b) = has_char x a || has_char x b.
Proof.
  induction a as [|c a IH]; [done|].
  change (has_char x (String c (a +:+ b))
          = has_char x (String c a) || has_char x b).
  cbn. by rewrite IH, orb_assoc.
Qed.

Lemma has_char_all_space x pad :
  Str.isspace x = false → all_space pad = true → has_char x pad = false.
Proof.
  intros Hx. induction pad as [|c pad IH]; [done|]. cbn.
  intros [Hc Hp]%andb_true_iff. rewrite IH by done.
  case_bool_decide; [congruence|done].
Qed.

Lemma split_no_sep sep a : has_char sep a = false → Str.split sep a = [a].
Proof.
  induction a as [|c a IH]; [done|]. cbn.
  intros [Hc Ha]%orb_false_iff. rewrite Hc, IH by done. done.
Qed.

Lemma split_at_sep sep (a b : string) :
  has_char sep a = false →
  Str.split sep (a +:+ String sep b) = a :: Str.split sep b.
Proof.
  induction a as [|c a IH]; intros H.
  - change (EmptyString +:+ String sep b) with (String sep b). cbn.
    by rewrite bool_decide_eq_true_2.
  - change (String c a +:+ String sep b) with (String c (a +:+ String sep b)).
    cbn in H |- *. apply orb_false_iff in H as [Hc Ha].
    rewrite Hc, IH by done. done.
Qed.

Lemma span_not_at x (a b : string) :
  has_char x a = false → Re.span_not x (a +:+ String x b) = (a, String x b).
Proof.
  induction a as [|c a IH]; intros H.
  - change (EmptyString +:+ String x b) with (String x b). cbn.
    by rewrite bool_decide_eq_true_2.
  - change (String c a +:+ String x b) with (String c (a +:+ String x b)).
    cbn in H |- *. apply orb_false_iff in H as [Hc Ha].
    rewrite Hc, IH by done. done.
Qed.

Lemma rstrip_ends_nonspace (s : string) c :
  Str.isspace c = false →
  Str.rstrip (s +:+ String c EmptyString) = s +:+ String c EmptyString.
Proof.
  intros Hc. induction s as [|a s IH].
  - change (EmptyString +:+ String c EmptyString) with (String c EmptyString).
    cbn. by rewrite Hc.
  - change (String a s +:+ String c EmptyString)
      with (String a (s +:+ String c EmptyString)).
    cbn [Str.rstrip]. rewrite IH.
    by destruct s.
Qed.

Lemma match_link_entry url rel :
  Str.is_empty url = false → has_char ">" url = false →
  Str.is_empty rel = false → has_char Re.dquote rel = false →
  Re.match_link (link_entry url rel) = Some (url, rel).
Proof.
  intros Hu1 Hu2 Hr1 Hr2. unfold Re.match_link, link_entry.
  change ("<" +:+ ?x) with (String "<"%char x).
  cbn [Re.lit]. rewrite bool_decide_eq_true_2 by done. cbn [mbind option_bind].
  unfold Re.many1_not.
  change (">; rel=" +:+ ?x) with (String ">"%char ("; rel=" +:+ x)).
  rewrite span_not_at by done. rewrite Hu1. cbn [mbind option_bind Re.lit].
  rewrite bool_decide_eq_true_2 by done. cbn [mbind option_bind].
  change ("; rel=" +:+ ?x) with (String ";"%char (" rel=" +:+ x)).
  cbn [Re.lit]. rewrite bool_decide_eq_true_2 by done. cbn [mbind option_bind].
  change (Re.spaces (" rel=" +:+ ?x)) with ("rel=" +:+ x).
  change (Re.word "rel=" ("rel=" +:+ ?x)) with (Some x).
  cbn [mbind option_bind Re.lit]. rewrite bool_decide_eq_true_2 by done.
  cbn [mbind option_bind].
  rewrite span_not_at by done. rewrite Hr1. cbn [mbind option_bind Re.lit].
  rewrite bool_decide_eq_true_2 by done. done.
Qed.

Lemma strip_padded_entry pad url rel :
  all_space pad = true →
  Str.strip (pad +:+ link_entry url rel) = link_entry url rel.
Proof.
  intros Hp. unfold Str.strip. rewrite StrFacts.lstrip_all_space by done.
  unfold link_entry.
  change (Str.lstrip ("<" +:+ ?x)) with ("<" +:+ x).
  rewrite <- !append_assoc.
  change (String Re.dquote (rel +:+ String Re.dquote EmptyString))
    with ((String Re.dquote rel) +:+ String Re.dquote EmptyString).
  rewrite <- append_assoc. by apply rstrip_ends_nonspace.
Qed.

Lemma has_char_comma_entry url rel :
  has_char "," url = false → has_char "," rel = false →
  has_char "," (link_entry url rel) = false.
Proof.
  intros Hu Hr. unfold link_entry.
  change (String Re.dquote (rel +:+ String Re.dquote EmptyString))
    with (String Re.dquote EmptyString +:+ rel +:+ String Re.dquote EmptyString).
  rewrite !has_char_append, Hu, Hr. done.
Qed.

Lemma entry_ok_unfold e :
  entry_ok e = true →
  Str.is_empty e.1 = false ∧ has_char ">" e.1 = false ∧ has_char "," e.1 = false
  ∧ Str.is_empty e.2 = false ∧ has_char Re.dquote e.2 = false
  ∧ has_char "," e.2 = false.
Proof.
  unfold entry_ok. rewrite !andb_true_iff, !negb_true_iff. tauto.
Qed.

Lemma parse_padded_link_header pad entries (out : gmap string string) :
  all_space pad = true →
  forallb entry_ok entries = true →
  foldl (λ out part,
           let part := Str.strip part in
           match Re.match_link part with
           | Some (url, rel) => <[rel := url]> out
           | None => out
           end)
        out (Str.split "," (pad +:+ link_header entries))
  = foldl (λ m e, <[e.2 := e.1]> m) out entries.
Proof.
  intros Hp. revert pad Hp out.
  induction entries as [|[url rel] rest IH]; intros pad Hp out Hok.
  - cbn [link_header]. rewrite split_no_sep.
    + cbn [foldl]. unfold Str.strip.
      rewrite StrFacts.lstrip_all_space by done. done.
    + rewrite has_char_append, (has_char_all_space "," pad) by done. done.
  - cbn [forallb] in Hok. apply andb_true_iff in Hok as [He Hok].
    apply entry_ok_unfold in He as (Hu1 & Hu2 & Hu3 & Hr1 & Hr2 & Hr3).
    cbn [fst snd] in *.
    assert (Hc : has_char "," (pad +:+ link_entry url rel) = false).
    { rewrite has_char_append, (has_char_all_space "," pad),
        has_char_comma_entry by done. done. }
    destruct rest as [|e' rest'].
    + cbn [link_header]. rewrite split_no_sep by done. cbn [foldl].
      rewrite strip_padded_entry, match_link_entry by done. done.
    + change (link_header ((url, rel) :: e' :: rest'))
        with (link_entry url rel +:+ ", " +:+ link_header (e' :: rest')).
      change (", " +:+ ?x) with (String ","%char (" " +:+ x)).
      rewrite <- append_assoc, split_at_sep by done. cbn [foldl].
      rewrite strip_padded_entry, match_link_entry by done.
      rewrite (IH " ") by done. done.
Qed.

(** X8. Round trip of the [Link] header: a header written as entries of
    the form URL in angle brackets, semicolon, rel and the quoted
    relation, separated by a comma and a space, parses to the map from
    each relation to its URL, the last entry winning when a relation is
    repeated, provided URLs and relations are not empty and contain
    neither a comma nor their closing delimiter. *)
Theorem link_header_round_trip entries :
  forallb entry_ok entries = true →
  parse_link_header (Some (link_header entries))
  = foldl (λ m e, <[e.2 := e.1]> m) ∅ entries.
Proof.
  intros Hok. unfold parse_link_header. cbn [Str.or_empty default].
  apply (parse_padded_link_header EmptyString entries ∅); done.
Qed.

Lemma link_header_round_trip_witness :
  parse_link_header
    (Some (link_header [(Sample.page2_url, "next"); (Sample.page1_url, "first");
                        ("https://api.github.com/x?page=9", "next")]))
  = foldl (λ m e, <[e.2 := e.1]> m) ∅
      [(Sample.page2_url, "next"); (Sample.page1_url, "first");
       ("https://api.github.com/x?page=9", "next")].
Proof. apply link_header_round_trip. reflexivity. Defined.

End LinkMore.

(** * More on the enumerator *)

Section CollectMore.
Implicit Types (vs : list string) (seen : gset string).

(** X9. Releases served again add nothing: once a page has been
    collected, collecting any releases of that page a second time, as
    when the index serves the same page or an overlapping one again,
    leaves both the list of versions and the set of seen tags as they
    are. *)
Theorem collect_page_again data data' acc :
  data' ⊆ data →
  collect_page data' (collect_page data acc) = collect_page data acc.
Proof.
  intros Hsub. destruct acc as [vs seen].
  rewrite collect_page_first_occurrences. cbv zeta.
  set (new := first_occurrences_from seen (normalize_tag ∘ tag_name <$> data)).
  rewrite collect_page_first_occurrences. cbv zeta.
  assert (Hnil : first_occurrences_from (list_to_set new ∪ seen)
                   (normalize_tag ∘ tag_name <$> data') = []).
  { apply elem_of_nil_inv. intros x.
    rewrite elem_of_first_occurrences_from. intros (Hx & Hn & Hin).
    apply Hn. apply elem_of_union.
    destruct (decide (x ∈ seen)) as [|Hs]; [by right|left].
    apply elem_of_list_to_set. apply elem_of_first_occurrences_from.
    split_and!; [done..|].
    apply list_elem_of_fmap in Hin as (r & -> & Hr).
    apply list_elem_of_fmap. exists r. split; [done|]. by apply Hsub. }
  rewrite Hnil, app_nil_r. f_equal. set_solver.
Qed.

Lemma collect_page_again_witness :
  collect_page [Release (Some "v1.0")]
    (collect_page [Release (Some "version/1.0"); Release (Some "v1.0")] ([], ∅))
  = collect_page [Release (Some "version/1.0"); Release (Some "v1.0")] ([], ∅).
Proof.
  apply collect_page_again. intros r Hr.
  apply list_elem_of_singleton in Hr as ->. by right; left.
Defined.

(** X10. The invariant of the collecting loop: when the list of versions
    has no duplicate and no empty entry and the set of seen tags is the
    set of its entries, the same holds after any page, and the versions
    collected before stay where they are, at the front. *)
Theorem collect_page_invariant data vs seen :
  NoDup vs → EmptyString ∉ vs → seen = list_to_set vs →
  let acc := collect_page data (vs, seen) in
  vs `prefix_of` acc.1 ∧ NoDup acc.1 ∧ (EmptyString ∉ acc.1)
  ∧ acc.2 = list_to_set acc.1.
Proof.
  intros Hnd Hne ->. cbv zeta.
  rewrite collect_page_first_occurrences. cbv zeta. cbn [fst snd].
  set (new := first_occurrences_from _ _).
  assert (Hnew : ∀ x, x ∈ new → x ≠ EmptyString ∧ x ∉ vs).
  { intros x (Hx & Hs & _)%elem_of_first_occurrences_from.
    split; [done|]. by rewrite elem_of_list_to_set in Hs. }
  split_and!.
  - by apply prefix_app_r.
  - apply NoDup_app. split_and!; [done| |apply NoDup_first_occurrences_from].
    intros x Hx Hx'. by apply Hnew in Hx' as [_ ?].
  - rewrite elem_of_app. intros [?|Hx]; [done|]. by apply Hnew in Hx as [? _].
  - rewrite list_to_set_app_L. set_solver.
Qed.

Lemma collect_page_invariant_witness :
  let acc := collect_page [Release (Some "v1.1"); Release None;
                           Release (Some "version/1.0")]
               (["1.0"], list_to_set ["1.0"]) in
  ["1.0"] `prefix_of` acc.1 ∧ NoDup acc.1 ∧ (EmptyString ∉ acc.1)
  ∧ acc.2 = list_to_set acc.1.
Proof.
  apply collect_page_invariant.
  - apply NoDup_singleton.
  - by intros ?%list_elem_of_singleton.
  - reflexivity.
Defined.

End CollectMore.

Section EnumeratorMore.
Context `{P : Platform}.

Lemma opens_app evs1 evs2 : opens (evs1 ++ evs2) = opens evs1 ++ opens evs2.
Proof. apply omap_app. Qed.

Lemma opens_page_events timeout token verbose st resp :
  opens (page_events timeout token verbose st resp)
  = [(github_request (fs_url st) token, timeout, inr resp)].
Proof. unfold page_events. by destruct verbose. Qed.

Lemma opens_prelude repo token : opens (prelude_events repo token) = [].
Proof. unfold prelude_events. by destruct (truthy token). Qed.

Lemma fetch_loop_follows_next fuel timeout token verbose st s st' s' :
  fetch_loop fuel timeout token verbose st s = (Return st', s') →
  ∃ evs, trace s' = trace s ++ evs
         ∧ follows_next timeout token (fs_url st) (opens evs).
Proof.
  revert st s. induction fuel as [|fuel IH]; intros st s;
    rewrite fetch_loop_unfold;
    destruct (Str.is_empty (fs_url st)) eqn:Eu; try done.
  1,2: intros [= <- <-]; exists []; by rewrite app_nil_r.
  destruct (fetch_page timeout token verbose st s) as [[st1| |] s1] eqn:Ep;
    try done.
  apply fetch_page_Return in Ep as (resp & data & w & _ & _ & Hd & -> & ->).
  intros (evs & Ht & Hf)%IH. cbn [trace] in Ht.
  exists (page_events timeout token verbose st resp ++ evs).
  split; [by rewrite Ht, <- app_assoc|].
  rewrite opens_app, opens_page_events. cbn [app follows_next].
  split_and!; [done..|]. exists resp. split; [done|].
  unfold after_page in Hf. cbn [fs_url] in Hf.
  by rewrite parse_link_header_or_empty in Hf.
Qed.

(** X11. The requests of an enumeration that returns: the first is the
    index request for the first page of the repository, with the headers
    of the token, each one is answered by a response, each further one is
    the index request for the URL that the response before it names as
    the next page, and the last response names no next page. All are made
    with the timeout given. *)
Theorem enumerator_follows_next_links fuel repo timeout token verbose s versions s' :
  github_fetch_release_tags fuel repo timeout token verbose s
    = (Return versions, s') →
  ∃ evs,
    trace s' = trace s ++ evs
    ∧ follows_next timeout token (first_page_url repo) (opens evs)
    ∧ opens evs ≠ [].
Proof.
  rewrite github_fetch_release_tags_run.
  destruct (fetch_loop _ _ _ _ _ _) as [[st| |] s1] eqn:El; try done.
  intros [= <- <-].
  apply fetch_loop_follows_next in El as (evs & Ht & Hf). cbn in Ht.
  exists (prelude_events repo token ++ evs
          ++ postlude_events (length (fs_versions st))).
  assert (Ho : opens (prelude_events repo token ++ evs
                      ++ postlude_events (length (fs_versions st)))
               = opens evs).
  { rewrite !opens_app, opens_prelude. cbn. by rewrite app_nil_r. }
  rewrite Ho. split_and!.
  - cbn. by rewrite Ht, <- !app_assoc.
  - done.
  - cbn [fs_url] in Hf. intros E. rewrite E in Hf. cbn in Hf. done.
Qed.

End EnumeratorMore.

Lemma enumerator_follows_next_links_witness :
  ∃ evs,
    trace (github_fetch_release_tags (P:=Sample.platform) 5
             "goauthentik/authentik" 20 None false Sample.start).2
      = trace Sample.start ++ evs
    ∧ follows_next 20 None (first_page_url "goauthentik/authentik") (opens evs)
    ∧ opens evs ≠ [].
Proof.
  apply (enumerator_follows_next_links (P:=Sample.platform) 5
           "goauthentik/authentik" 20 None false Sample.start
           ["2024.2.1"; "2023.10.7"; "2023.10.6"]).
  reflexivity.
Defined.

Section EnumeratorErrors.
Context `{P : Platform}.

Lemma take_prefix n s : ∃ rest, s = Str.take n s +:+ rest.
Proof.
  revert s. induction n as [|n IH]; intros s; [by exists s; destruct s|].
  destruct s as [|c s]; [by exists EmptyString|].
  destruct (IH s) as [rest Hr]. exists rest. cbn [Str.take].
  change (String c (Str.take n s) +:+ rest)
    with (String c (Str.take n s +:+ rest)).
  by rewrite <- Hr.
Qed.

Lemma length_take n s :
  String.length (Str.take n s) = Nat.min n (String.length s).
Proof.
  revert s. induction n as [|n IH]; intros s; [by destruct s|].
  destruct s as [|c s]; [done|]. cbn [Str.take String.length]. by rewrite IH.
Qed.

(** X12. An HTTP error of the index, at any page: the loop raises the
    error it was given and requests nothing more. Before that it closes
    the progress line and writes the status code, then the body of the
    error unless it is empty or could not be read, cut to its first 800
    characters, then the hint about rate limits. *)
Theorem index_http_error_is_reported fuel timeout token verbose st s code body w :
  Str.is_empty (fs_url st) = false →
  request_refused (fs_url st) = None →
  opener_open (github_request (fs_url st) token) timeout (world s)
    = (inl (HTTPError code body), w) →
  ∃ shown,
    fetch_loop (S fuel) timeout token verbose st s
    = (Raise (HTTPError code body),
       MkState w
         (trace s
          ++ [EvUpdate (ProgressFetch (fs_page st) (length (fs_versions st)))]
          ++ (if verbose then [EvEprint (MsgDebugGet (fs_url st))] else [])
          ++ [EvOpen (github_request (fs_url st) token) timeout
                (inl (HTTPError code body));
              EvDone; EvEprint (MsgApiError code)]
          ++ shown ++ [EvEprint MsgRateLimitHint]))
    ∧ if Str.is_empty (Str.or_empty body) then shown = []
      else ∃ text rest,
             shown = [EvEprint (MsgApiBody text)]
             ∧ Str.or_empty body = text +:+ rest
             ∧ String.length text
               = Nat.min 800 (String.length (Str.or_empty body)).
Proof.
  intros Hu Hr Ho.
  exists (if truthy body
          then [EvEprint (MsgApiBody (Str.take 800 (Str.or_empty body)))]
          else []).
  split.
  - rewrite fetch_loop_unfold, Hu, fetch_page_run. cbv zeta. rewrite Hr, Ho.
    unfold fetch_error_events. cbn [fst snd].
    rewrite <- !app_assoc. cbn [app]. done.
  - unfold truthy. destruct (Str.is_empty (Str.or_empty body)); [done|].
    cbn [negb]. destruct (take_prefix 800 (Str.or_empty body)) as [rest Hrest].
    exists (Str.take 800 (Str.or_empty body)), rest.
    split_and!; [done|done|apply length_take].
Qed.

Lemma fetch_loop_cycle (cyc : string → Prop) timeout token verbose :
  (∀ u, cyc u →
     Str.is_empty u = false ∧ request_refused u = None
     ∧ ∀ w, ∃ resp data w',
         opener_open (github_request u token) timeout w = (inr resp, w')
         ∧ resp_releases resp = Some data
         ∧ cyc (get_next (parse_link_header (resp_link resp)))) →
  ∀ fuel st s,
    cyc (fs_url st) →
    ∃ s' evs,
      fetch_loop fuel timeout token verbose st s = (OutOfFuel, s')
      ∧ trace s' = trace s ++ evs
      ∧ length (opens evs) = fuel.
Proof.
  intros Hcyc. induction fuel as [|fuel IH]; intros st s Hc;
    rewrite fetch_loop_unfold;
    destruct (Hcyc _ Hc) as (Hu & Hr & Ho); rewrite Hu.
  - exists s, []. by rewrite app_nil_r.
  - destruct (Ho (world s)) as (resp & data & w & Hopen & Hd & Hn).
    rewrite (fetch_page_ok _ _ _ _ _ resp data w) by done.
    destruct (IH (after_page st resp data)
                (MkState w (trace s ++ page_events timeout token verbose st resp)))
      as (s' & evs & Hrun & Ht & Hl).
    { unfold after_page. cbn [fs_url]. by rewrite parse_link_header_or_empty. }
    cbn [trace] in Ht.
    exists s', (page_events timeout token verbose st resp ++ evs).
    split_and!; [done|by rewrite Ht, <- app_assoc|].
    rewrite opens_app, opens_page_events. cbn. by rewrite Hl.
Qed.

(** X13. The page loop has no bound of its own and does not notice a
    cycle. When the first page URL lies in a set of URLs that the request
    constructor accepts and that the index always answers with a page
    whose next relation is again in the set, the enumeration never
    returns and never raises: whatever the number of turns allowed, it
    uses them all, with one request per turn. *)
Theorem enumeration_cycle_never_ends (cyc : string → Prop)
    repo timeout token verbose :
  (∀ u, cyc u →
     Str.is_empty u = false ∧ request_refused u = None
     ∧ ∀ w, ∃ resp data w',
         opener_open (github_request u token) timeout w = (inr resp, w')
         ∧ resp_releases resp = Some data
         ∧ cyc (get_next (parse_link_header (resp_link resp)))) →
  cyc (first_page_url repo) →
  ∀ fuel s,
    ∃ s' evs,
      github_fetch_release_tags fuel repo timeout token verbose s
        = (OutOfFuel, s')
      ∧ trace s' = trace s ++ evs
      ∧ length (opens evs) = fuel.
Proof.
  intros Hcyc Hfirst fuel s. rewrite github_fetch_release_tags_run.
  destruct (fetch_loop_cycle cyc timeout token verbose Hcyc fuel
              (MkFetch (first_page_url repo) 1 [] ∅)
              (add_events s (prelude_events repo token)) Hfirst)
    as (s' & evs & -> & Ht & Hl).
  exists s', (prelude_events repo token ++ evs). split_and!; [done| |].
  - rewrite Ht. cbn. by rewrite <- app_assoc.
  - by rewrite opens_app, opens_prelude.
Qed.

End EnumeratorErrors.

Lemma index_http_error_is_reported_witness :
  ∃ shown,
    fetch_loop (P:=Sample2.limited_platform) 1 20 (Some "t0ken") true
      (MkFetch Sample.page1_url 1 [] ∅)
      (@MkState Sample2.limited_platform 0%nat [])
    = (Raise (HTTPError 403 (Some "API rate limit exceeded")),
       @MkState Sample2.limited_platform 1%nat
         ([]
          ++ [EvUpdate (ProgressFetch 1 0)]
          ++ [EvEprint (MsgDebugGet Sample.page1_url)]
          ++ [EvOpen (github_request Sample.page1_url (Some "t0ken")) 20
                (inl (HTTPError 403 (Some "API rate limit exceeded")));
              EvDone; EvEprint (MsgApiError 403)]
          ++ shown ++ [EvEprint MsgRateLimitHint]))
    ∧ ∃ text rest,
        shown = [EvEprint (MsgApiBody text)]
        ∧ "API rate limit exceeded" = text +:+ rest
        ∧ String.length text = Nat.min 800 (String.length "API rate limit exceeded").
Proof.
  apply (index_http_error_is_reported (P:=Sample2.limited_platform) 0 20
           (Some "t0ken") true (MkFetch Sample.page1_url 1 [] ∅)
           (@MkState Sample2.limited_platform 0%nat []) 403
           (Some "API rate limit exceeded") 1%nat); reflexivity.
Defined.

Lemma enumeration_cycle_never_ends_witness :
  ∃ s' evs,
    github_fetch_release_tags (P:=Sample2.cyclic_platform) 7
      "goauthentik/authentik" 20 None false
      (@MkState Sample2.cyclic_platform 0%nat [])
      = (OutOfFuel, s')
    ∧ trace s' = [] ++ evs
    ∧ length (opens evs) = 7%nat.
Proof.
  apply (enumeration_cycle_never_ends (P:=Sample2.cyclic_platform)
           (λ u, u = Sample.page1_url) "goauthentik/authentik" 20 None false).
  - intros u ->. split_and!; [reflexivity|reflexivity|].
    intros w. eexists _, _, _. split_and!; reflexivity.
  - reflexivity.
Defined.

(** * More on [main] *)

Section Requests.
Context `{P : Platform}.

Lemma opens_shown args ui i total ver status :
  opens (shown_events args ui i total ver status) = [].
Proof. unfold shown_events. by destruct ui, (arg_verbose args). Qed.

Lemma opens_pause args : opens (pause_events args) = [].
Proof. unfold pause_events. by destruct (negb _). Qed.

Lemma opens_fetch_error e : opens (fetch_error_events e) = [].
Proof. destruct e as [code body| | | | |]; try done. cbn. by destruct (truthy body). Qed.

Lemma opens_final args found checked total :
  opens (final_events args found checked total) = [].
Proof.
  assert (Hl : ∀ l : list hit, opens ((λ h, EvEprint (MsgHitLine h)) <$> l) = []).
  { induction l as [|h l IH]; [done|]. cbn. apply IH. }
  unfold final_events. destruct found as [|h found]; [done|].
  rewrite !opens_app. destruct (arg_all args); [|done].
  cbn [opens omap list_omap]. change (omap _ ?l) with (opens l).
  by rewrite (Hl (h :: found)).
Qed.

Lemma fetch_page_index_ops timeout token verbose st s :
  ∃ evs, trace (fetch_page timeout token verbose st s).2 = trace s ++ evs
         ∧ Forall (index_op timeout token) (opens evs).
Proof.
  rewrite fetch_page_run. cbv zeta.
  destruct (request_refused (fs_url st)).
  { eexists. cbn [snd trace]. split; [reflexivity|]. by destruct verbose. }
  destruct (opener_open _ timeout (world s)) as [answer w].
  assert (Hop : Forall (index_op timeout token)
                  (opens [EvOpen (github_request (fs_url st) token) timeout answer])).
  { repeat constructor. }
  destruct answer as [e|resp]; [|destruct (resp_releases resp)];
    eexists; cbn [snd trace]; rewrite <- !app_assoc;
    (split; [reflexivity|]);
    rewrite !opens_app, ?opens_fetch_error, ?app_nil_r;
    destruct verbose; cbn [app]; done.
Qed.

Lemma fetch_loop_index_ops fuel timeout token verbose st s :
  ∃ evs, trace (fetch_loop fuel timeout token verbose st s).2 = trace s ++ evs
         ∧ Forall (index_op timeout token) (opens evs).
Proof.
  revert st s. induction fuel as [|fuel IH]; intros st s;
    rewrite fetch_loop_unfold; destruct (Str.is_empty (fs_url st)).
  1-3: exists []; by rewrite app_nil_r.
  destruct (fetch_page_index_ops timeout token verbose st s) as (evs1 & H1 & F1).
  destruct (fetch_page timeout token verbose st s) as [[st1| |] s1];
    cbn [snd] in H1; [|by exists evs1..].
  destruct (IH st1 s1) as (evs2 & H2 & F2). exists (evs1 ++ evs2).
  split; [by rewrite H2, H1, <- app_assoc|].
  rewrite opens_app. by apply Forall_app.
Qed.

Lemma github_fetch_index_ops fuel repo timeout token verbose s :
  ∃ evs,
    trace (github_fetch_release_tags fuel repo timeout token verbose s).2
    = trace s ++ evs
    ∧ Forall (index_op timeout token) (opens evs).
Proof.
  rewrite github_fetch_release_tags_run.
  destruct (fetch_loop_index_ops fuel timeout token verbose
              (MkFetch (first_page_url repo) 1 [] ∅)
              (add_events s (prelude_events repo token))) as (evs & Ht & Hf).
  cbn [add_events trace] in Ht.
  destruct (fetch_loop _ _ _ _ _ _) as [[st| |] s1]; cbn [snd] in Ht |- *.
  - exists (prelude_events repo token ++ evs
            ++ postlude_events (length (fs_versions st))).
    split; [cbn [add_events trace]; by rewrite Ht, <- !app_assoc|].
    rewrite !opens_app, opens_prelude. cbn. by rewrite app_nil_r.
  - exists (prelude_events repo token ++ evs).
    split; [by rewrite Ht, <- !app_assoc|].
    by rewrite !opens_app, opens_prelude.
  - exists (prelude_events repo token ++ evs).
    split; [by rewrite Ht, <- !app_assoc|].
    by rewrite !opens_app, opens_prelude.
Qed.

Lemma probe_loop_probe_ops args ui base total i versions found checked s :
  ∃ evs,
    trace (probe_loop args ui base total i versions found checked s).2
    = trace s ++ evs
    ∧ Forall (probe_op base (arg_timeout args)) (opens evs).
Proof.
  revert i found checked s.
  induction versions as [|ver rest IH]; intros i found checked s.
  { exists []. cbn. by rewrite app_nil_r. }
  rewrite probe_loop_cons. cbv zeta.
  destruct (request_refused (probe_url base ver)).
  { exists []. cbn. by rewrite app_nil_r. }
  destruct (opener_open _ (arg_timeout args) (world s)) as [answer w].
  set (turn := [EvOpen (probe_request (probe_url base ver)) (arg_timeout args) answer]
               ++ shown_events args ui i total ver (answer_status answer)).
  assert (Hturn : Forall (probe_op base (arg_timeout args)) (opens turn)).
  { unfold turn. rewrite opens_app, opens_shown. repeat constructor.
    by exists ver. }
  assert (Hnext : ∀ found' ,
    ∃ evs,
      trace (probe_loop args ui base total (S i) rest found' (S checked)
               (add_events (MkState w (trace s ++ turn)) (pause_events args))).2
      = trace s ++ evs
      ∧ Forall (probe_op base (arg_timeout args)) (opens evs)).
  { intros found'.
    destruct (IH (S i) found' (S checked)
                (add_events (MkState w (trace s ++ turn)) (pause_events args)))
      as (evs & Ht & Hf).
    cbn [add_events trace] in Ht.
    exists (turn ++ pause_events args ++ evs).
    split; [by rewrite Ht, <- !app_assoc|].
    rewrite !opens_app, opens_pause. cbn [app]. by apply Forall_app. }
  destruct (is_hit (answer_status answer)); [destruct (arg_all args)|];
    [apply Hnext| |apply Hnext].
  exists turn. done.
Qed.

(** X14. The requests of a run of [main], whatever its outcome, once the
    base URL is known: first index requests only, each with the headers
    of the enumerator for the token of the environment, then probes only,
    each for the URL of some candidate under the base URL; all with the
    timeout of the command line. No probe carries an [Authorization]
    header: the token is sent to the index and never to the instance. *)
Theorem main_requests_index_then_probes fuel args s base_url s1 :
  resolves args s base_url s1 →
  ∃ evs idx prb,
    trace (main fuel args s).2 = trace s1 ++ evs
    ∧ opens evs = idx ++ prb
    ∧ Forall (index_op (arg_timeout args) env_token) idx
    ∧ Forall (probe_op base_url (arg_timeout args)) prb
    ∧ Forall (λ op, has_header "Authorization" op.1.1 = false) prb.
Proof.
  intros Hres. rewrite (main_run fuel args s base_url s1 Hres).
  assert (Hauth : ∀ prb,
    Forall (probe_op base_url (arg_timeout args)) prb →
    Forall (λ op, has_header "Authorization" op.1.1 = false) prb).
  { intros prb Hp. eapply Forall_impl; [exact Hp|].
    intros [[req t] answer] [_ [ver ->]]. done. }
  destruct (Str.is_empty base_url).
  { exists [EvEprint MsgNoBaseUrl], [], []. by split_and!. }
  destruct (github_fetch_index_ops fuel (arg_repo args) (arg_timeout args)
              env_token (arg_verbose args) s1) as (evs1 & H1 & F1).
  destruct (github_fetch_release_tags _ _ _ _ _ s1) as [[versions| |] s2];
    cbn [snd] in H1.
  2,3: exists evs1, (opens evs1), []; rewrite app_nil_r; by split_and!.
  destruct versions as [|v versions].
  { exists (evs1 ++ [EvEprint MsgNoReleases]), (opens evs1), [].
    rewrite opens_app, !app_nil_r. split_and!; try done.
    cbn [add_events trace snd]. by rewrite H1, <- app_assoc. }
  set (vs := v :: versions).
  destruct (probe_loop_probe_ops args (ui_enabled_for args) base_url (length vs)
              1 vs [] 0 (add_events s2 (phase2_events base_url)))
    as (evs2 & H2 & F2).
  cbn [add_events trace] in H2.
  destruct (probe_loop _ _ _ _ _ _ _ _ _) as [[[found checked]| |] s3];
    cbn [snd] in H2.
  - exists (evs1 ++ phase2_events base_url ++ evs2
            ++ final_events args found checked (length vs)),
      (opens evs1), (opens evs2).
    split_and!; [|rewrite !opens_app, opens_final, app_nil_r|..]; try done;
      [|by apply Hauth].
    cbn [add_events trace snd]. by rewrite H2, H1, <- !app_assoc.
  - exists (evs1 ++ phase2_events base_url ++ evs2), (opens evs1), (opens evs2).
    split_and!; [|rewrite !opens_app|..]; try done; [|by apply Hauth].
    cbn [snd]. by rewrite H2, H1, <- !app_assoc.
  - exists (evs1 ++ phase2_events base_url ++ evs2), (opens evs1), (opens evs2).
    split_and!; [|rewrite !opens_app|..]; try done; [|by apply Hauth].
    cbn [snd]. by rewrite H2, H1, <- !app_assoc.
Qed.

End Requests.

Lemma main_requests_index_then_probes_witness :
  ∃ evs idx prb,
    trace (main (P:=Sample.platform) 5
             (Sample.args "https://sso.example.com/" true) Sample.start).2
      = trace Sample.start ++ evs
    ∧ opens evs = idx ++ prb
    ∧ Forall (index_op 20 (env_token (P:=Sample.platform))) idx
    ∧ Forall (probe_op "https://sso.example.com" 20) prb
    ∧ Forall (λ op, has_header "Authorization" op.1.1 = false) prb.
Proof.
  apply (main_requests_index_then_probes (P:=Sample.platform) 5
           (Sample.args "https://sso.example.com/" true) Sample.start
           "https://sso.example.com" Sample.start).
  left. split_and!; reflexivity.
Defined.

Section Raising.
Context `{P : Platform}.

(** X15. A base URL that the request constructor refuses stops the run
    with an exception, not with an exit code: when the enumeration has
    returned candidates and the probe URL of the first one is refused,
    [main] raises the constructor's exception right after the heading of
    the second phase, with no probe made and no result line written. *)
Theorem refused_probe_url_aborts_main fuel args s base_url s1 v rest s2 e :
  resolves args s base_url s1 →
  Str.is_empty base_url = false →
  github_fetch_release_tags fuel (arg_repo args) (arg_timeout args)
    env_token (arg_verbose args) s1 = (Return (v :: rest), s2) →
  request_refused (probe_url base_url v) = Some e →
  main fuel args s = (Raise e, add_events s2 (phase2_events base_url)).
Proof.
  intros Hres He Hen Hr. rewrite (main_run fuel args s base_url s1 Hres).
  rewrite He, Hen, probe_loop_cons. cbv zeta. by rewrite Hr.
Qed.

(** X16. The end of input at the prompt is not caught: when the command
    line gives no base URL, or a blank one, and standard input is at its
    end, [main] raises [EOFError] before anything is written or
    requested. *)
Theorem eof_at_prompt_raises fuel args s w :
  Str.is_empty (Str.strip (Str.or_empty (arg_base_url args))) = true →
  read_line (world s) = (None, w) →
  main fuel args s = (Raise EOFError, MkState w (trace s ++ [EvInput None])).
Proof.
  intros Hg Hl. unfold main. unfold bind at 1. rewrite Hg.
  unfold bind at 1, input at 1. by rewrite Hl.
Qed.

End Raising.

(** The sample instance, given a base URL without scheme. *)
Lemma refused_probe_url_aborts_main_witness :
  main (P:=Sample.platform) 5 (Sample.args "sso.example.com" false) Sample.start
  = (Raise ValueError,
     add_events
       (github_fetch_release_tags (P:=Sample.platform) 5
          "goauthentik/authentik" 20 None false Sample.start).2
       (phase2_events "sso.example.com")).
Proof.
  apply (refused_probe_url_aborts_main (P:=Sample.platform) 5
           (Sample.args "sso.example.com" false) Sample.start
           "sso.example.com" Sample.start "2024.2.1"
           ["2023.10.7"; "2023.10.6"]).
  - left. split_and!; reflexivity.
  - reflexivity.
  - reflexivity.
  - reflexivity.
Defined.

Lemma eof_at_prompt_raises_witness :
  main (P:=Sample2.eof_platform) 5
    (MkArgs None "goauthentik/authentik" 20 0 false false false false)
    (@MkState Sample2.eof_platform 0%nat [])
  = (Raise EOFError, @MkState Sample2.eof_platform 0%nat ([] ++ [EvInput None])).
Proof.
  apply (eof_at_prompt_raises (P:=Sample2.eof_platform)); reflexivity.
Defined.

Section BaseUrl.
Context `{P : Platform}.

Lemma probe_loop_args_ext args args' ui base total versions :
  arg_timeout args = arg_timeout args' →
  arg_verbose args = arg_verbose args' →
  arg_sleep args = arg_sleep args' →
  arg_all args = arg_all args' →
  ∀ i found checked s,
    probe_loop args ui base total i versions found checked s
    = probe_loop args' ui base total i versions found checked s.
Proof.
  intros Ht Hv Hs Ha.
  induction versions as [|ver rest IH]; intros i found checked s; [done|].
  rewrite !probe_loop_cons. cbv zeta. unfold shown_events, pause_events.
  rewrite <- Ht, <- Hv, <- Hs, <- Ha.
  destruct (request_refused (probe_url base ver)); [done|].
  destruct (opener_open _ (arg_timeout args) (world s)) as [answer w].
  destruct (is_hit (answer_status answer)); [destruct (arg_all args)|];
    try done; apply IH.
Qed.

(** X18. Blanks around the base URL and slashes at its end do not
    matter: two command lines that differ only in the base URL, both
    given and not blank, make the same run, with the same exit code, the
    same requests and the same output, as soon as the two base URLs are
    equal once surrounding whitespace and then trailing slashes are
    removed. *)
Theorem base_url_blanks_and_slashes_ignored fuel args b b' s :
  Str.is_empty (Str.strip b) = false →
  Str.is_empty (Str.strip b') = false →
  Str.rstrip_char "/" (Str.strip b) = Str.rstrip_char "/" (Str.strip b') →
  main fuel (with_base_url args (Some b)) s
  = main fuel (with_base_url args (Some b')) s.
Proof.
  intros Hb Hb' Heq.
  rewrite (main_run fuel (with_base_url args (Some b)) s
             (Str.rstrip_char "/" (Str.strip b)) s) by (by left).
  rewrite (main_run fuel (with_base_url args (Some b')) s
             (Str.rstrip_char "/" (Str.strip b)) s) by (by left).
  unfold ui_enabled_for, final_events.
  cbn [with_base_url arg_repo arg_timeout arg_verbose arg_no_ui arg_all].
  destruct (Str.is_empty _); [done|].
  destruct (github_fetch_release_tags _ _ _ _ _ s) as [[versions| |] s2];
    [|done..].
  destruct versions as [|v versions]; [done|].
  rewrite (probe_loop_args_ext (with_base_url args (Some b))
             (with_base_url args (Some b'))) by done.
  done.
Qed.

End BaseUrl.

Lemma base_url_blanks_and_slashes_ignored_witness :
  main (P:=Sample.platform) 5
    (with_base_url (Sample.args "" false) (Some "  https://sso.example.com// "))
    Sample.start
  = main (P:=Sample.platform) 5
      (with_base_url (Sample.args "" false) (Some "https://sso.example.com"))
      Sample.start.
Proof.
  apply (base_url_blanks_and_slashes_ignored (P:=Sample.platform));
    reflexivity.
Defined.

Section Modes.
Context `{P : Platform}.





End Modes.


Section EnumeratorOutput.
Context `{P : Platform}.

Lemma sleeps_app evs1 evs2 : sleeps (evs1 ++ evs2) = sleeps evs1 ++ sleeps evs2.
Proof. apply omap_app. Qed.

Lemma messages_app evs1 evs2 :
  messages (evs1 ++ evs2) = messages evs1 ++ messages evs2.
Proof. apply omap_app. Qed.

Lemma fetch_loop_output fuel timeout token verbose st s st' s' :
  fetch_loop fuel timeout token verbose st s = (Return st', s') →
  ∃ evs,
    trace s' = trace s ++ evs
    ∧ sleeps evs = replicate (length (opens evs)) (1 # 20)%Q
    ∧ messages evs
      = if verbose
        then (λ op, MsgDebugGet (full_url op.1.1)) <$> opens evs
        else [].
Proof.
  revert st s. induction fuel as [|fuel IH]; intros st s;
    rewrite fetch_loop_unfold;
    destruct (Str.is_empty (fs_url st)) eqn:Eu; try done.
  1,2: intros [= <- <-]; exists []; rewrite app_nil_r; by destruct verbose.
  destruct (fetch_page timeout token verbose st s) as [[st1| |] s1] eqn:Ep;
    try done.
  apply fetch_page_Return in Ep as (resp & data & w & _ & _ & Hd & -> & ->).
  intros (evs & Ht & Hs & Hm)%IH. cbn [trace] in Ht.
  exists (page_events timeout token verbose st resp ++ evs).
  split_and!.
  - by rewrite Ht, <- app_assoc.
  - rewrite sleeps_app, opens_app, opens_page_events, Hs.
    unfold page_events. by destruct verbose.
  - rewrite messages_app, opens_app, opens_page_events, Hm.
    unfold page_events. by destruct verbose.
Qed.

(** X20. The enumerator pauses for a twentieth of a second after every
    page, the last one included: a run that returns has made as many
    pauses as requests, all of that length. *)
Theorem enumerator_pauses_after_every_page
    fuel repo timeout token verbose s versions s' :
  github_fetch_release_tags fuel repo timeout token verbose s
    = (Return versions, s') →
  ∃ evs,
    trace s' = trace s ++ evs
    ∧ sleeps evs = replicate (length (opens evs)) (1 # 20)%Q.
Proof.
  rewrite github_fetch_release_tags_run.
  destruct (fetch_loop _ _ _ _ _ _) as [[st| |] s1] eqn:El; try done.
  intros [= <- <-].
  apply fetch_loop_output in El as (evs & Ht & Hs & _). cbn in Ht.
  exists (prelude_events repo token ++ evs
          ++ postlude_events (length (fs_versions st))).
  split.
  - cbn. by rewrite Ht, <- !app_assoc.
  - rewrite !sleeps_app, !opens_app, opens_prelude. cbn [app].
    assert (Hp : sleeps (prelude_events repo token) = []).
    { unfold prelude_events. by destruct (truthy token). }
    rewrite Hp. cbn. by rewrite !app_nil_r.
Qed.

(** X21. What an enumeration that returns writes with [eprint]: the
    heading of the first phase and the repository, the tip about the
    token when there is no token, with the verbose flag one debug line
    per request, with the URL requested, and at the end the number of
    versions it returns and a blank line. Nothing else. *)
Theorem enumerator_messages fuel repo timeout token verbose s versions s' :
  github_fetch_release_tags fuel repo timeout token verbose s
    = (Return versions, s') →
  ∃ evs,
    trace s' = trace s ++ evs
    ∧ messages evs
      = [MsgPhase1; MsgRepo repo]
        ++ (if truthy token then [] else [MsgTokenTip])
        ++ (if verbose
            then (λ op, MsgDebugGet (full_url op.1.1)) <$> opens evs
            else [])
        ++ [MsgFetched (length versions); MsgBlank].
Proof.
  rewrite github_fetch_release_tags_run.
  destruct (fetch_loop _ _ _ _ _ _) as [[st| |] s1] eqn:El; try done.
  intros [= <- <-].
  apply fetch_loop_output in El as (evs & Ht & _ & Hm). cbn in Ht.
  exists (prelude_events repo token ++ evs
          ++ postlude_events (length (fs_versions st))).
  split.
  - cbn. by rewrite Ht, <- !app_assoc.
  - rewrite !messages_app, !opens_app, opens_prelude, Hm. cbn [app].
    change (opens (postlude_events _)) with (@nil (request * Q * (exn + http_response))).
    rewrite app_nil_r. unfold prelude_events.
    destruct (truthy token); cbn; by rewrite <- ?app_assoc.
Qed.

End EnumeratorOutput.

Lemma enumerator_pauses_after_every_page_witness :
  ∃ evs,
    trace (github_fetch_release_tags (P:=Sample.platform) 5
             "goauthentik/authentik" 20 None false Sample.start).2
      = trace Sample.start ++ evs
    ∧ sleeps evs = replicate (length (opens evs)) (1 # 20)%Q.
Proof.
  apply (enumerator_pauses_after_every_page (P:=Sample.platform) 5
           "goauthentik/authentik" 20 None false Sample.start
           ["2024.2.1"; "2023.10.7"; "2023.10.6"]).
  reflexivity.
Defined.

Lemma enumerator_messages_witness :
  ∃ evs,
    trace (github_fetch_release_tags (P:=Sample.platform) 5
             "goauthentik/authentik" 20 None true Sample.start).2
      = trace Sample.start ++ evs
    ∧ messages evs
      = [MsgPhase1; MsgRepo "goauthentik/authentik"]
        ++ [MsgTokenTip]
        ++ ((λ op, MsgDebugGet (full_url op.1.1)) <$> opens evs)
        ++ [MsgFetched (length ["2024.2.1"; "2023.10.7"; "2023.10.6"]); MsgBlank].
Proof.
  apply (enumerator_messages (P:=Sample.platform) 5
           "goauthentik/authentik" 20 None true Sample.start
           ["2024.2.1"; "2023.10.7"; "2023.10.6"]).
  reflexivity.
Defined.

(** ** The probe once its request is built *)

Section ProbeAnswers.
Context `{P : Platform}.


End ProbeAnswers.

